(** * turing-doodle: the animation scheduler and the Turing-machine simulator

    A shallow embedding of [turing.anim] (the tick scheduler), of the logical
    part of [turing.Program] and [turing.Tape], and of [turing.Simulator],
    followed by the properties checked against them.

    Conventions.
    - JavaScript numbers that only ever hold integers (ticks, event ids,
      positions, counters, wall-clock milliseconds) are [Z]; the frame period
      [msPerFrame_] and durations are exact rationals [Q] standing for the
      doubles of the source.
    - Closures stored in the queue or in the simulator are named: [CbStep] is
      [goog.bind(this.step, this)], [CbUser n] is any other closure, whose
      body is given by a function [user] on the whole state.
    - DOM work (sprites, highlights, tape animation) is left out: [dimCurOp],
      [lightCurOp_], [showErase_], [showPrint_] and the scan animations only
      write styles, as long as no seek set up by [setString] is under way,
      and the simulator never cancels them.  The animation events they queue
      are therefore not in the modelled queue; the ticks at which the
      simulator's own events fire do not depend on them.
    - Invocations of callbacks are recorded in a list of observations that
      the functions return next to the new state. *)

From Stdlib Require Import ZArith QArith Qround Qminmax Lia Lqa List String Ascii Bool.
From Stdlib Require Import Sorting.Mergesort Sorting.Sorted Sorting.Permutation.
From stdpp Require Import gmap strings list.

Local Open Scope string_scope.
Local Open Scope list_scope.
Local Open Scope Z_scope.

(** ** JavaScript strings, as far as the simulator uses them *)

(** [s.charAt(i)]: the one-character string at index [i], or the empty
    string. *)
Definition charAt (s : string) (i : nat) : string :=
  match String.get i s with
  | Some c => String c EmptyString
  | None => EmptyString
  end.

(** [s.substr(1)]. *)
Definition substr1 (s : string) : string :=
  match s with
  | String _ rest => rest
  | EmptyString => EmptyString
  end.

Definition is_digit_2_9 (c : ascii) : bool :=
  let n := N_of_ascii c in (50 <=? n)%N && (n <=? 57)%N.

(** [/B[2-9]/.test(s)]: a [B] followed by a digit from 2 to 9, anywhere. *)
Fixpoint test_B_2_9 (s : string) : bool :=
  match s with
  | EmptyString => false
  | String c rest =>
      match rest with
      | String d _ =>
          (Ascii.eqb c "B" && is_digit_2_9 d) || test_B_2_9 rest
      | EmptyString => false
      end
  end.

(** [/^D/.test(s)] and [/^U/.test(s)]. *)
Definition starts_with (c : ascii) (s : string) : bool :=
  match s with
  | String c' _ => Ascii.eqb c' c
  | EmptyString => false
  end.

(** [/^[UDB]/.test(s)]. *)
Definition test_UDB (s : string) : bool :=
  starts_with "U" s || starts_with "D" s || starts_with "B" s.

(** [parseInt(s, 10)] for the strings [charAt] returns: a decimal digit gives
    its value, anything else is NaN ([None]). *)
Definition parseInt1 (s : string) : option Z :=
  match s with
  | String c EmptyString =>
      let n := N_of_ascii c in
      if (48 <=? n)%N && (n <=? 57)%N then Some (Z.of_N n - 48) else None
  | _ => None
  end.

(** The string an undefined value turns into when a regular expression is
    tested against it. *)
Definition regexp_arg (op : option string) : string :=
  match op with
  | Some s => s
  | None => "undefined"
  end.

(** Truthiness of a possibly undefined string. *)
Definition truthy (op : option string) : bool :=
  match op with
  | Some (String _ _) => true
  | _ => false
  end.

(** Array indexing with a JavaScript number that holds an integer. *)
Definition zlookup {A : Type} (l : list A) (i : Z) : option A :=
  if i <? 0 then None else l !! Z.to_nat i.

(** ** turing.Program: tracks of operations and the two positions *)

Record Program := mkProgram {
  tracks_ : list (list string);
  numActiveTracks_ : Z;
  curTrack_ : Z;
  curTrackPos_ : Z;
  nextTrack_ : Z;
  nextTrackPos_ : Z;
  nextPosIsEnd_ : bool
}.

Module Program.

(** The object the constructor builds when [turing.numTracks_] tracks are
    shown: every track empty, both positions at the origin, the end flag
    set. *)
Definition new (numTracks : nat) : Program :=
  mkProgram (repeat [] numTracks) 0 0 0 0 0 true.

(** [Program.prototype.change]: [Track.setOps] copies [trackOps[i] || []]
    into each of the [numTracks] tracks. *)
Definition change (numTracks : nat) (trackOps : list (list string))
    (p : Program) : Program :=
  mkProgram
    (map (fun i => default [] (trackOps !! i)) (seq 0 numTracks))
    (Z.of_nat (length trackOps)) 0 0 0 0 false.

Definition getCurTrack (p : Program) : Z := curTrack_ p.
Definition getCurTrackPos (p : Program) : Z := curTrackPos_ p.
Definition isNextPosEnd (p : Program) : bool := nextPosIsEnd_ p.

(** [Program.prototype.setNextPos]; [numOpsPerTrack] is the global
    [turing.numOpsPerTrack_]. *)
Definition setNextPos (numOpsPerTrack : Z) (track pos : Z) (p : Program)
    : Program :=
  if (0 <=? track) && (track <? numActiveTracks_ p) &&
     (0 <=? pos) && (pos <? numOpsPerTrack)
  then mkProgram (tracks_ p) (numActiveTracks_ p) (curTrack_ p)
         (curTrackPos_ p) track pos false
  else mkProgram (tracks_ p) (numActiveTracks_ p) (curTrack_ p)
         (curTrackPos_ p) (nextTrack_ p) (nextTrackPos_ p) true.

(** [setNextPos] called with a position that is NaN: every comparison is
    false. *)
Definition setNextPosNaN (p : Program) : Program :=
  mkProgram (tracks_ p) (numActiveTracks_ p) (curTrack_ p)
    (curTrackPos_ p) (nextTrack_ p) (nextTrackPos_ p) true.

(** [Program.prototype.goToNextPos], without the highlights. *)
Definition goToNextPos (p : Program) : Program :=
  if nextPosIsEnd_ p then p
  else mkProgram (tracks_ p) (numActiveTracks_ p) (nextTrack_ p)
         (nextTrackPos_ p) (nextTrack_ p) (nextTrackPos_ p)
         (nextPosIsEnd_ p).

(** [Program.prototype.getCurOp]: [tracks_[curTrack_].ops[curTrackPos_]],
    undefined past the end of the array. *)
Definition getCurOp (p : Program) : option string :=
  match zlookup (tracks_ p) (curTrack_ p) with
  | Some ops => zlookup ops (curTrackPos_ p)
  | None => None
  end.

End Program.

(** ** turing.Tape: the symbols and the head *)

Record Tape := mkTape {
  contents_ : gmap Z string;
  pos_ : Z;
  maxWrittenPosition_ : Z
}.

Module Tape.

Definition new : Tape := mkTape ∅ 0 0.

(** [Tape.prototype.scanLeft] and [scanRight]: the head moves at once, the
    scrolling is animation. *)
Definition scanLeft (t : Tape) : Tape :=
  mkTape (contents_ t) (pos_ t - 1) (maxWrittenPosition_ t).

Definition scanRight (t : Tape) : Tape :=
  mkTape (contents_ t) (pos_ t + 1) (maxWrittenPosition_ t).

(** [Tape.prototype.print]. *)
Definition print (symbol : string) (t : Tape) : Tape :=
  mkTape (<[pos_ t := symbol]> (contents_ t)) (pos_ t)
    (Z.max (pos_ t) (maxWrittenPosition_ t)).

(** [Tape.prototype.getCurSymbol]: [contents_[pos_] || '_']. *)
Definition getCurSymbol (t : Tape) : string :=
  match contents_ t !! pos_ t with
  | Some (String c rest) => String c rest
  | _ => "_"
  end.

(** [Tape.prototype.writeString_]. *)
Fixpoint writeString_ (str : string) (start : Z) (t : Tape) : Tape :=
  match str with
  | EmptyString => t
  | String c rest =>
      writeString_ rest (start + 1)
        (mkTape (<[start := String c EmptyString]> (contents_ t)) (pos_ t)
           (maxWrittenPosition_ t))
  end.

(** A square that holds a symbol: neither empty nor one of the two ways a
    blank is written. *)
Definition is_symbol (s : string) : bool :=
  negb (String.eqb s "") && negb (String.eqb s "_") &&
  negb (String.eqb s " ").

(** [Tape.prototype.clearOutsideRange_]: every square that has an entry and
    lies outside [start, end] gets the empty string. *)
Definition clearOutsideRange_ (start end_ : Z) (t : Tape) : Tape :=
  mkTape
    (map_imap
       (fun i s => Some (if (i <? start) || (end_ <? i) then "" else s))
       (contents_ t))
    (pos_ t) (maxWrittenPosition_ t).

(** [Tape.prototype.getIndexOfFirstSymbol_]: the loop over the entries keeps
    the least position it has seen with a symbol on it; -1 if there is
    none. *)
Definition getIndexOfFirstSymbol_ (t : Tape) : Z :=
  default (-1)
    (map_fold
       (fun i s minValidPos =>
          if is_symbol s then
            Some (match minValidPos with
                  | None => i
                  | Some m => Z.min m i
                  end)
          else minValidPos)
       None (contents_ t)).

End Tape.

(** ** turing.anim: the tick scheduler *)

(** The closures the model knows: the simulator's bound [step], and
    closures of the caller, named by a number. *)
Inductive Callback :=
  | CbStep
  | CbUser (n : nat).

(** An entry of [turing.anim.queue_]. *)
Record Frame := mkFrame {
  ticks : Z;
  call : Callback;
  eventId : Z
}.

Record Anim := mkAnim {
  stopped_ : bool;
  queue_ : list Frame;
  queueDirty_ : bool;
  curTick_ : Z;
  eventId_ : Z;
  lastTickStartTime_ : Z;
  tooSlowTicks_ : Z;
  msPerFrame_ : Q
}.

(** The comparison function given to [queue_.sort]: by due tick, then by
    event id.  Event ids are distinct, so the order is total and the sorted
    queue does not depend on the sorting algorithm. *)
Module FrameOrder <: Orders.TotalLeBool.

Definition t := Frame.

Definition leb (a b : Frame) : bool :=
  if ticks a =? ticks b then eventId a <=? eventId b
  else ticks a <? ticks b.

Theorem leb_total (a b : Frame) : leb a b = true \/ leb b a = true.
Proof.
  unfold leb. rewrite (Z.eqb_sym (ticks b)).
  destruct (ticks a =? ticks b) eqn:E; lia.
Qed.

End FrameOrder.

Module FrameSort := Sort FrameOrder.

Module anim.

Definition MAX_FPS_MS_ : Q := 1000 # 60.
Definition MIN_FPS_MS_ : Q := 1000 # 20.

(** The module state when the script is loaded. *)
Definition initial : Anim := mkAnim true [] false 0 1 0 0 MAX_FPS_MS_.

(** [turing.anim.getNumTicks_]: [Math.ceil(duration / msPerFrame_)]. *)
Definition getNumTicks_ (duration : Q) (a : Anim) : Z :=
  Qceiling (duration / msPerFrame_ a).

(** [turing.anim.delayTicks]: the id handed out and the new state. *)
Definition delayTicks (callback : Callback) (ticksToWait : Z) (a : Anim)
    : Z * Anim :=
  (eventId_ a,
   mkAnim (stopped_ a)
     (queue_ a ++ [mkFrame (curTick_ a + ticksToWait) callback (eventId_ a)])
     true (curTick_ a) (eventId_ a + 1) (lastTickStartTime_ a)
     (tooSlowTicks_ a) (msPerFrame_ a)).

(** [turing.anim.delay]. *)
Definition delay (callback : Callback) (duration : Q) (a : Anim) : Z * Anim :=
  delayTicks callback (getNumTicks_ duration a) a.

(** The loop of [turing.anim.cancel]: splice out the first entry with the
    given id. *)
Fixpoint remove_event (id : Z) (q : list Frame) : list Frame :=
  match q with
  | [] => []
  | f :: q' => if eventId f =? id then q' else f :: remove_event id q'
  end.

Definition cancel (id : Z) (a : Anim) : Anim :=
  mkAnim (stopped_ a) (remove_event id (queue_ a)) (queueDirty_ a)
    (curTick_ a) (eventId_ a) (lastTickStartTime_ a) (tooSlowTicks_ a)
    (msPerFrame_ a).

(** [turing.anim.throttleFrameRate_]; [now] is [new Date().getTime()]. *)
Definition throttleFrameRate_ (now : Z) (a : Anim) : Anim :=
  if (30 <? curTick_ a) && negb (lastTickStartTime_ a =? 0) then
    let tickLength := now - lastTickStartTime_ a in
    let slow :=
      if Qle_bool ((105 # 100) * msPerFrame_ a) (inject_Z tickLength)
      then tooSlowTicks_ a + 1
      else Z.shiftr (tooSlowTicks_ a) 1 in
    if 20 <? slow then
      mkAnim (stopped_ a) (queue_ a) (queueDirty_ a) (curTick_ a)
        (eventId_ a) now 0
        (Qmin MIN_FPS_MS_ (msPerFrame_ a * (12 # 10)))
    else
      mkAnim (stopped_ a) (queue_ a) (queueDirty_ a) (curTick_ a)
        (eventId_ a) now slow (msPerFrame_ a)
  else
    mkAnim (stopped_ a) (queue_ a) (queueDirty_ a) (curTick_ a)
      (eventId_ a) now (tooSlowTicks_ a) (msPerFrame_ a).

(** [turing.anim.start]; the frame request it makes is served by whoever
    drives [loop_step]. *)
Definition start (a : Anim) : Anim :=
  mkAnim false (queue_ a) (queueDirty_ a) (curTick_ a) (eventId_ a)
    (lastTickStartTime_ a) (tooSlowTicks_ a) (msPerFrame_ a).

Definition resetFpsController_ (a : Anim) : Anim :=
  mkAnim (stopped_ a) (queue_ a) (queueDirty_ a) (curTick_ a) (eventId_ a)
    0 0 (msPerFrame_ a).

Definition stop (a : Anim) : Anim :=
  resetFpsController_
    (mkAnim true (queue_ a) (queueDirty_ a) (curTick_ a) (eventId_ a)
       (lastTickStartTime_ a) (tooSlowTicks_ a) (msPerFrame_ a)).

Definition reset (a : Anim) : Anim :=
  let a1 := stop a in
  resetFpsController_
    (mkAnim (stopped_ a1) [] false 0 1 (lastTickStartTime_ a1)
       (tooSlowTicks_ a1) MAX_FPS_MS_).

Definition isStopped (a : Anim) : bool := stopped_ a.

(** The head of the frame callback in [turing.anim.loop_]: sort the queue
    if it changed since the last frame. *)
Definition sort_if_dirty (a : Anim) : Anim :=
  if queueDirty_ a then
    mkAnim (stopped_ a) (FrameSort.sort (queue_ a)) false (curTick_ a)
      (eventId_ a) (lastTickStartTime_ a) (tooSlowTicks_ a) (msPerFrame_ a)
  else a.

(** The tail of the frame callback: [queue_.splice(0, numFrames)] and
    [curTick_++]. *)
Definition finish_tick (numFrames : nat) (a : Anim) : Anim :=
  mkAnim (stopped_ a) (drop numFrames (queue_ a)) (queueDirty_ a)
    (curTick_ a + 1) (eventId_ a) (lastTickStartTime_ a) (tooSlowTicks_ a)
    (msPerFrame_ a).

(** The loop [for (tick = ...; tick <= numTicks; tick++)] of
    [turing.anim.animateThroughBackgrounds], with [n] rounds to go:
    [frame tick] is the closure it binds for that tick. *)
Fixpoint schedule_frames (frame : Z -> Callback) (n : nat) (tick : Z)
    (a : Anim) : Anim :=
  match n with
  | O => a
  | S n' =>
      schedule_frames frame n' (tick + 1)
        (snd (delayTicks (frame tick) tick a))
  end.

(** [turing.anim.animateThroughBackgrounds]; what the closures do to the
    element is DOM work, here they are only named. *)
Definition animateThroughBackgrounds (frame : Z -> Callback) (duration : Q)
    (opt_doneCallback : option Callback) (a : Anim) : Anim :=
  let numTicks := getNumTicks_ duration a in
  let a1 := schedule_frames frame (Z.to_nat (numTicks + 1)) 0 a in
  match opt_doneCallback with
  | Some done => snd (delayTicks done numTicks a1)
  | None => a1
  end.

(** [turing.anim.animateFromSprites]: looks up the backgrounds of the
    sprites and calls [animateThroughBackgrounds]. *)
Definition animateFromSprites (frame : Z -> Callback) (duration : Q)
    (opt_doneCallback : option Callback) (a : Anim) : Anim :=
  animateThroughBackgrounds frame duration opt_doneCallback a.

End anim.

(** ** turing.Simulator *)

Inductive SpeedSetting := SLOW | TUTORIAL | NORMAL | FAST | LUDICROUS.

Record Speeds := mkSpeeds {
  stepTime : Z;
  tapeTime : Z;
  emptyStepTime : Z;
  branchTime : Z
}.

Definition SPEED_CONFIG (speed : SpeedSetting) : Speeds :=
  match speed with
  | SLOW => mkSpeeds 750 600 400 850
  | TUTORIAL => mkSpeeds 650 500 200 750
  | NORMAL => mkSpeeds 450 300 200 550
  | FAST => mkSpeeds 250 200 100 250
  | LUDICROUS => mkSpeeds 100 50 100 100
  end.

Definition SOMEWHAT_BORING_REPEAT_COUNT : Z := 4.
Definition VERY_BORING_REPEAT_COUNT : Z := 6.

(** The fields of a [turing.Simulator].  [program_] and [tape_] are
    references into the stores of the state below; [doneCallback_] is the
    name of a closure of the caller.  The keys of [runCount_] are the pairs
    the source writes as the string [track + ',' + pos]. *)
Record Simulator := mkSimulator {
  program_ : option nat;
  tape_ : option nat;
  stepTimerId_ : Z;
  doneCallback_ : option nat;
  stepCount_ : Z;
  stepLimit_ : Z;
  runCount_ : gmap (Z * Z) Z;
  speeds_ : Speeds;
  paused_ : bool
}.

(** Everything the scheduler and the simulator can reach: the module state
    of [turing.anim], the globals [turing.numTracks_] and
    [turing.numOpsPerTrack_], the [Program] and [Tape] objects by reference,
    and the one simulator [turing.simulator_]. *)
Record World := mkWorld {
  animState : Anim;
  numTracks_ : nat;
  numOpsPerTrack_ : Z;
  programs : nat -> Program;
  tapes : nat -> Tape;
  simulator_ : Simulator
}.

Definition set_anim (a : Anim) (w : World) : World :=
  mkWorld a (numTracks_ w) (numOpsPerTrack_ w) (programs w) (tapes w)
    (simulator_ w).

Definition set_sim (s : Simulator) (w : World) : World :=
  mkWorld (animState w) (numTracks_ w) (numOpsPerTrack_ w) (programs w)
    (tapes w) s.

Definition fn_upd {A : Type} (r : nat) (x : A) (f : nat -> A) : nat -> A :=
  fun r' => if Nat.eqb r' r then x else f r'.

Definition set_program (r : nat) (p : Program) (w : World) : World :=
  mkWorld (animState w) (numTracks_ w) (numOpsPerTrack_ w)
    (fn_upd r p (programs w)) (tapes w) (simulator_ w).

Definition set_tape (r : nat) (t : Tape) (w : World) : World :=
  mkWorld (animState w) (numTracks_ w) (numOpsPerTrack_ w) (programs w)
    (fn_upd r t (tapes w)) (simulator_ w).

(** What is observed of a run: the scheduler invoking a queued callback (by
    event id, with the tick of the drain), and the simulator invoking a done
    callback. *)
Inductive Obs :=
  | Fired (id : Z) (tick : Z)
  | Done (n : nat).

Definition str_is (op : option string) (s : string) : bool :=
  match op with
  | Some s' => String.eqb s' s
  | None => false
  end.

Module Simulator.

(** The fields the constructor sets. *)
Definition new : Simulator :=
  mkSimulator None None (-1) None 0 0 ∅ (SPEED_CONFIG NORMAL) false.

Definition isRunning (s : Simulator) : bool := negb (stepTimerId_ s =? -1).

Definition setStepLimit (limit : Z) (w : World) : World :=
  let s := simulator_ w in
  set_sim (mkSimulator (program_ s) (tape_ s) (stepTimerId_ s)
             (doneCallback_ s) (stepCount_ s) limit (runCount_ s) (speeds_ s)
             (paused_ s)) w.

Definition hasStepLimit (s : Simulator) : bool := negb (stepLimit_ s =? 0).

(** [Simulator.prototype.run]. *)
Definition run (program tape : nat) (speed : SpeedSetting)
    (opt_doneCallback : option nat) (w : World) : World :=
  let s := simulator_ w in
  if isRunning s then w
  else
    let w1 :=
      set_program program
        (Program.setNextPos (numOpsPerTrack_ w) 0 0 (programs w program)) w in
    let '(id, a) := anim.delay CbStep 0 (animState w1) in
    set_sim (mkSimulator (Some program) (Some tape) id opt_doneCallback 0
               (stepLimit_ s) ∅ (SPEED_CONFIG speed) (paused_ s))
      (set_anim a w1).

(** The part of [stop] and [pause] they share: cancel the step timer if
    there is one. *)
Definition cancel_step_timer (w : World) : World :=
  if negb (stepTimerId_ (simulator_ w) =? -1)
  then set_anim (anim.cancel (stepTimerId_ (simulator_ w)) (animState w)) w
  else w.

(** [Simulator.prototype.pause]. *)
Definition pause (w : World) : World :=
  let w1 := cancel_step_timer w in
  let s := simulator_ w1 in
  set_sim (mkSimulator (program_ s) (tape_ s) (-1) (doneCallback_ s)
             (stepCount_ s) (stepLimit_ s) (runCount_ s) (speeds_ s) true) w1.

(** [Simulator.prototype.resumeIfPaused]. *)
Definition resumeIfPaused (w : World) : World :=
  let s := simulator_ w in
  let w1 :=
    if paused_ s then
      let '(id, a) := anim.delay CbStep 0 (animState w) in
      set_sim (mkSimulator (program_ s) (tape_ s) id (doneCallback_ s)
                 (stepCount_ s) (stepLimit_ s) (runCount_ s) (speeds_ s)
                 (paused_ s)) (set_anim a w)
    else w in
  let s1 := simulator_ w1 in
  set_sim (mkSimulator (program_ s1) (tape_ s1) (stepTimerId_ s1)
             (doneCallback_ s1) (stepCount_ s1) (stepLimit_ s1)
             (runCount_ s1) (speeds_ s1) false) w1.

(** [Simulator.prototype.speedUpBoringLoops_], on the program the simulator
    runs. *)
Definition speedUpBoringLoops_ (prog : Program) (s : Simulator) : Simulator :=
  let pc := (Program.getCurTrack prog, Program.getCurTrackPos prog) in
  let count := default 0 (runCount_ s !! pc) in
  let counts := <[pc := count + 1]> (runCount_ s) in
  mkSimulator (program_ s) (tape_ s) (stepTimerId_ s) (doneCallback_ s)
    (stepCount_ s) (stepLimit_ s) counts
    (if VERY_BORING_REPEAT_COUNT <? count then SPEED_CONFIG LUDICROUS
     else if SOMEWHAT_BORING_REPEAT_COUNT <? count then SPEED_CONFIG FAST
     else speeds_ s)
    (paused_ s).

(** The chain of tests on [op] in [step]: the new program and tape and the
    value of [implicitStep]. *)
Definition dispatch (numOpsPerTrack : Z) (op : option string)
    (prog : Program) (t : Tape) : Program * Tape * bool :=
  let r := regexp_arg op in
  if str_is op "0" || str_is op "1" || str_is op "_" then
    (prog, Tape.print r t, true)
  else if str_is op "L" then (prog, Tape.scanLeft t, true)
  else if str_is op "R" then (prog, Tape.scanRight t, true)
  else if test_B_2_9 r then
    (match parseInt1 (charAt r 1) with
     | Some d =>
         Program.setNextPos numOpsPerTrack (Program.getCurTrack prog)
           (Program.getCurTrackPos prog - d) prog
     | None => Program.setNextPosNaN prog
     end, t, false)
  else if starts_with "D" r then
    if (String.length r =? 1)%nat ||
       String.eqb (Tape.getCurSymbol t) (charAt r 1)
    then (Program.setNextPos numOpsPerTrack (Program.getCurTrack prog + 1)
            (Program.getCurTrackPos prog) prog, t, false)
    else (prog, t, true)
  else if starts_with "U" r then
    if (String.length r =? 1)%nat ||
       String.eqb (Tape.getCurSymbol t) (charAt r 1)
    then (Program.setNextPos numOpsPerTrack (Program.getCurTrack prog - 1)
            (Program.getCurTrackPos prog) prog, t, false)
    else (prog, t, true)
  else (prog, t, true).

(** The operation [step] works on: the current one, without the marker of an
    editable operation ([if (op && op.charAt(0) == '*') op = op.substr(1)]). *)
Definition strip_marker (op : option string) : option string :=
  match op with
  | Some s =>
      if truthy op && String.eqb (charAt s 0) "*" then Some (substr1 s)
      else op
  | None => op
  end.

(** The delay [step] asks for before the next step. *)
Definition stepTimeFor (op : option string) (sp : Speeds) : Z :=
  if negb (truthy op) then emptyStepTime sp
  else if test_UDB (regexp_arg op) then branchTime sp
  else stepTime sp.

Section WithCallbacks.

(** The bodies of the caller's closures. *)
Variable user : nat -> World -> World * list Obs.

(** [Simulator.prototype.stop]. *)
Definition stop (w : World) : World * list Obs :=
  let w1 := cancel_step_timer w in
  let s := simulator_ w1 in
  let w2 :=
    set_sim (mkSimulator None None (-1) (doneCallback_ s) (stepCount_ s)
               (stepLimit_ s) (runCount_ s) (speeds_ s) (paused_ s)) w1 in
  match doneCallback_ s with
  | Some d =>
      let '(w3, o) := user d w2 in
      let s3 := simulator_ w3 in
      (set_sim (mkSimulator (program_ s3) (tape_ s3) (stepTimerId_ s3) None
                  (stepCount_ s3) (stepLimit_ s3) (runCount_ s3) (speeds_ s3)
                  (paused_ s3)) w3,
       Done d :: o)
  | None => (w2, [])
  end.

(** [Simulator.prototype.step]. *)
Definition step (w : World) : World * list Obs :=
  let s := simulator_ w in
  match tape_ s, program_ s with
  | Some tr, Some pr =>
      if stepTimerId_ s =? -1 then (w, [])
      else
        let s1 :=
          mkSimulator (program_ s) (tape_ s) (-1) (doneCallback_ s)
            (stepCount_ s) (stepLimit_ s) (runCount_ s) (speeds_ s)
            (paused_ s) in
        let prog1 := Program.goToNextPos (programs w pr) in
        let w1 := set_program pr prog1 (set_sim s1 w) in
        if Program.isNextPosEnd prog1 ||
           ((0 <? stepLimit_ s1) && (stepLimit_ s1 <? stepCount_ s1))
        then stop w1
        else
          let s2 :=
            if 0 <? stepLimit_ s1 then speedUpBoringLoops_ prog1 s1
            else s1 in
          let op := strip_marker (Program.getCurOp prog1) in
          let '(prog2, t2, implicitStep) :=
            dispatch (numOpsPerTrack_ w) op prog1 (tapes w tr) in
          let prog3 :=
            if implicitStep then
              Program.setNextPos (numOpsPerTrack_ w)
                (Program.getCurTrack prog2) (Program.getCurTrackPos prog2 + 1)
                prog2
            else prog2 in
          let '(id, a) :=
            anim.delay CbStep (inject_Z (stepTimeFor op (speeds_ s2)))
              (animState w) in
          (set_sim (mkSimulator (program_ s2) (tape_ s2) id (doneCallback_ s2)
                      (stepCount_ s2 + 1) (stepLimit_ s2) (runCount_ s2)
                      (speeds_ s2) (paused_ s2))
             (set_anim a (set_tape tr t2 (set_program pr prog3 w))),
           [])
  | _, _ => (w, [])
  end.

(** Calling a queued closure. *)
Definition invoke (cb : Callback) (w : World) : World * list Obs :=
  match cb with
  | CbStep => step w
  | CbUser n => user n w
  end.

(** The [for] loop of the frame callback in [turing.anim.loop_].  It reads
    [queue_[i]] and [curTick_] afresh in every round, so it sees what the
    callbacks did to them.  A callback can keep the loop going for ever by
    queueing due events; [fuel] bounds the rounds, and [None] means the
    bound was reached. *)
Fixpoint drain (fuel : nat) (i numFrames : nat) (w : World)
    : option (World * nat * list Obs) :=
  match fuel with
  | O => None
  | S fuel' =>
      match queue_ (animState w) !! i with
      | None => Some (w, numFrames, [])
      | Some frame =>
          if ticks frame <=? curTick_ (animState w) then
            let '(w1, o1) := invoke (call frame) w in
            match drain fuel' (S i) (S numFrames) w1 with
            | Some (w2, n, o2) =>
                Some (w2, n,
                      Fired (eventId frame) (curTick_ (animState w))
                        :: o1 ++ o2)
            | None => None
            end
          else Some (w, numFrames, [])
      end
  end.

(** One run of the frame callback of [turing.anim.loop_], started by the
    host at wall-clock time [now]. *)
Definition loop_step (fuel : nat) (now : Z) (w : World)
    : option (World * list Obs) :=
  if stopped_ (animState w) then Some (w, [])
  else
    let a1 := anim.sort_if_dirty (anim.throttleFrameRate_ now (animState w)) in
    match drain fuel 0 0 (set_anim a1 w) with
    | Some (w2, numFrames, obs) =>
        Some (set_anim (anim.finish_tick numFrames (animState w2)) w2, obs)
    | None => None
    end.

End WithCallbacks.

End Simulator.

(** ** turing.util.getNextValue and the clickable operations of a track *)

Module util.

(** The loop of [turing.util.getNextValue]: the index at which it stops,
    counting from [i].  It stops at the searched value, at an element that
    is not truthy, or past the end. *)
Fixpoint getNextValue_index (arr : list string) (value : string) (i : nat)
    : nat :=
  match arr with
  | [] => i
  | arrValue :: rest =>
      if truthy (Some arrValue) then
        if String.eqb arrValue value then i
        else getNextValue_index rest value (S i)
      else i
  end.

(** [turing.util.getNextValue]; [None] is null or undefined. *)
Definition getNextValue (arr : list string) (value : string)
    : option string :=
  let i := getNextValue_index arr value 0 in
  let nextValue :=
    if Z.of_nat i =? Z.of_nat (length arr) - 1 then arr !! 0%nat
    else arr !! S i in
  if (i =? length arr)%nat then None else nextValue.

End util.

(** What a [turing.Track] holds besides its DOM nodes. *)
Record Track := mkTrack {
  ops : list string;
  interactive_ : bool
}.

Module Track.

Definition COND_BRANCH_UP_OPS_ : list string := ["U0"; "U1"; "U_"].
Definition COND_BRANCH_DOWN_OPS_ : list string := ["D0"; "D1"; "D_"].
Definition LOOP_BRANCH_OPS_ : list string := ["B2"; "B3"; "B4"].
Definition PRINT_OPS_ : list string := ["0"; "1"].
Definition MOVE_OPS_ : list string := ["L"; "R"].

(** [a || b] where [a] is a string, null or undefined. *)
Definition or_else (a : option string) (b : string) : string :=
  match a with
  | Some (String c rest) => String c rest
  | _ => b
  end.

Definition getOp (i : nat) (t : Track) : option string := ops t !! i.

(** [Track.prototype.setOp]: [this.ops[i] = value].  An index past the end
    makes the array longer, with holes up to [i]; the holes read as
    undefined, which the model has no element for, so it writes empty
    strings there: both are falsy for every reader in the source. *)
Definition setOp (i : nat) (value : string) (t : Track) : Track :=
  mkTrack
    (if (i <? length (ops t))%nat then <[i := value]> (ops t)
     else ops t ++ repeat "" (i - length (ops t)) ++ [value])
    (interactive_ t).

(** The operation [cycleOp] puts in place of [op]: the chain
    [getNextValue(...) || ... || op] over the five groups. *)
Definition cycled (op : string) : string :=
  or_else (util.getNextValue COND_BRANCH_UP_OPS_ op)
    (or_else (util.getNextValue COND_BRANCH_DOWN_OPS_ op)
       (or_else (util.getNextValue LOOP_BRANCH_OPS_ op)
          (or_else (util.getNextValue PRINT_OPS_ op)
             (or_else (util.getNextValue MOVE_OPS_ op) op)))).

(** [Track.prototype.cycleOp]. *)
Definition cycleOp (i : nat) (t : Track) : Track :=
  if negb (interactive_ t) then t
  else
    match getOp i t with
    | Some op =>
        if negb (truthy (Some op)) || negb (String.eqb (charAt op 0) "*")
        then t
        else setOp i (String.append "*" (cycled (substr1 op))) t
    | None => t
    end.

(** The five groups of operations a click cycles through. *)
Definition groups : list (list string) :=
  [COND_BRANCH_UP_OPS_; COND_BRANCH_DOWN_OPS_; LOOP_BRANCH_OPS_;
   PRINT_OPS_; MOVE_OPS_].

End Track.

(** ** Driving the model *)

(** What a caller or the host can do to the simulator: the four calls of the
    simulator's interface, and the host running one animation frame at
    wall-clock time [now]. *)
Inductive Action :=
  | ARun (program tape : nat) (speed : SpeedSetting) (cb : option nat)
  | AStop
  | APause
  | AResume
  | AFrame (now : Z).

Section Driver.

Variable user : nat -> World -> World * list Obs.
Variable fuel : nat.

Definition act (a : Action) (w : World) : option (World * list Obs) :=
  match a with
  | ARun program tape speed cb =>
      Some (Simulator.run program tape speed cb w, [])
  | AStop => Some (Simulator.stop user w)
  | APause => Some (Simulator.pause w, [])
  | AResume => Some (Simulator.resumeIfPaused w, [])
  | AFrame now => Simulator.loop_step user fuel now w
  end.

Fixpoint acts (l : list Action) (w : World) : option (World * list Obs) :=
  match l with
  | [] => Some (w, [])
  | a :: l' =>
      match act a w with
      | Some (w1, o1) =>
          match acts l' w1 with
          | Some (w2, o2) => Some (w2, o1 ++ o2)
          | None => None
          end
      | None => None
      end
  end.

End Driver.

Definition is_step (f : Frame) : bool :=
  match call f with
  | CbStep => true
  | CbUser _ => false
  end.

(** The simulator step events waiting in the scheduler's queue. *)
Definition pending_steps (w : World) : nat :=
  length (List.filter is_step (queue_ (animState w))).

Definition is_done (n : nat) (o : Obs) : bool :=
  match o with
  | Done m => Nat.eqb m n
  | Fired _ _ => false
  end.

Definition is_fired (o : Obs) : bool :=
  match o with
  | Fired _ _ => true
  | Done _ => false
  end.

(** How often the done callback [n] was invoked. *)
Definition count_done (n : nat) (obs : list Obs) : nat :=
  length (List.filter (is_done n) obs).

(** The state [turing.init] builds in normal mode: the scheduler reset and
    started, two tracks of eight operations, a fresh program, tape and
    simulator. *)
Definition boot : World :=
  mkWorld (anim.start (anim.reset anim.initial)) 2 8
    (fun _ => Program.new 2) (fun _ => Tape.new) Simulator.new.

(** Frames arriving every 16 ms, [n] of them, from time [t0] on. *)
Definition frames (t0 : Z) (n : nat) : list Action :=
  map (fun k => AFrame (t0 + 16 * Z.of_nat k)) (seq 0 n).

(** Frames arriving every 100 ms. *)
Definition slow_frames (t0 : Z) (n : nat) : list Action :=
  map (fun k => AFrame (t0 + 100 * Z.of_nat k)) (seq 0 n).

(** Callers without closures of their own. *)
Definition no_user (n : nat) (w : World) : World * list Obs := (w, []).

(** Closures for the examples: closure 0 calls
    [turing.anim.delay(closure 1, 0)], closure 2 calls
    [turing.anim.cancel(1)], closure 5 calls
    [turing.simulator_.run(program, tape, FAST)], every other closure does
    nothing. *)
Definition demo_user (n : nat) (w : World) : World * list Obs :=
  match n with
  | 0%nat => (set_anim (snd (anim.delay (CbUser 1) 0 (animState w))) w, [])
  | 2%nat => (set_anim (anim.cancel 1 (animState w)) w, [])
  | 5%nat => (Simulator.run 0 0 FAST None w, [])
  | _ => (w, [])
  end.

(** A program that never ends and never touches the tape: [D] on the upper
    track jumps down, [U] below it jumps back up. *)
Definition ping_pong : list (list string) := [["D"]; ["U"]].

(** A loop whose body takes a detour over the lower track whenever the
    square under the head holds a 1:
    [R] moves on, [D1] tests, [B2] closes the loop; the detour is an empty
    operation and [U]. *)
Definition detour_loop : list (list string) :=
  [["R"; "D1"; "B2"]; [""; ""; "U"]].

(** [boot] with program 0 changed to [ops], the tape 0 holding [str] from
    square 1 on, and the step limit set. *)
Definition setup (ops : list (list string)) (str : string) (limit : Z)
    : World :=
  Simulator.setStepLimit limit
    (set_tape 0 (Tape.writeString_ str 1 (tapes boot 0%nat))
       (set_program 0
          (Program.change (numTracks_ boot) ops (programs boot 0%nat)) boot)).

(** What the next call of [step] would execute: [None] if the guard at its
    head fails or the run halts, else the position of the operation. *)
Definition next_visit (w : World) : option (Z * Z) :=
  let s := simulator_ w in
  match tape_ s, program_ s with
  | Some _, Some pr =>
      if stepTimerId_ s =? -1 then None
      else
        let prog1 := Program.goToNextPos (programs w pr) in
        if Program.isNextPosEnd prog1 ||
           ((0 <? stepLimit_ s) && (stepLimit_ s <? stepCount_ s))
        then None
        else Some (Program.getCurTrack prog1, Program.getCurTrackPos prog1)
  | _, _ => None
  end.

(** The value of [tooSlowTicks_] inside [throttleFrameRate_] after the tick
    was counted or the counter halved, before it is compared with 20. *)
Definition overrun_count (now : Z) (a : Anim) : Z :=
  if Qle_bool ((105 # 100) * msPerFrame_ a)
       (inject_Z (now - lastTickStartTime_ a))
  then tooSlowTicks_ a + 1
  else Z.shiftr (tooSlowTicks_ a) 1.

(** Whether [throttleFrameRate_] measures this tick at all. *)
Definition throttle_active (a : Anim) : bool :=
  (30 <? curTick_ a) && negb (lastTickStartTime_ a =? 0).

(** A closure invoked in the state [w] defers: it leaves the scheduler's
    clock alone and, at most, queues events for later ticks. *)
Definition defers (user : nat -> World -> World * list Obs)
    (cb : Callback) (w : World) : Prop :=
  let a := animState w in
  let a' := animState (fst (Simulator.invoke user cb w)) in
  curTick_ a' = curTick_ a /\
  exists l, queue_ a' = queue_ a ++ l /\
            Forall (fun f => curTick_ a < ticks f) l.

(** A closure that defers in the states that satisfy [Inv], and leaves the
    state in [Inv].  [Inv] stands for what is known of the states a drain
    goes through: a closure that calls [turing.anim.delay] defers only
    where the frame period is positive. *)
Definition deferring (Inv : World -> Prop)
    (user : nat -> World -> World * list Obs) (cb : Callback) : Prop :=
  forall w, Inv w ->
    defers user cb w /\ Inv (fst (Simulator.invoke user cb w)).

(** An operation on which [step] calls the tape ([print], [scanLeft] or
    [scanRight]), and so starts an animation. *)
Definition makes_tape_call (op : string) : bool :=
  let o := Simulator.strip_marker (Some op) in
  str_is o "0" || str_is o "1" || str_is o "_" || str_is o "L" || str_is o "R".

(** The states in which the step callback defers: the frame period is
    positive, the speed is one of the five settings, no done callback is
    registered, and the program the simulator runs is one of jumps and
    empty operations only, so that a step starts no animation. *)
Definition step_ready (w : World) : Prop :=
  (0 < msPerFrame_ (animState w))%Q /\
  (exists setting, speeds_ (simulator_ w) = SPEED_CONFIG setting) /\
  doneCallback_ (simulator_ w) = None /\
  (forall pr, program_ (simulator_ w) = Some pr ->
     Forall (Forall (fun op => makes_tape_call op = false))
       (tracks_ (programs w pr))).

(** The state the drain of a frame starts in: the period measured and the
    queue put in order. *)
Definition frame_head (now : Z) (w : World) : World :=
  set_anim (anim.sort_if_dirty (anim.throttleFrameRate_ now (animState w))) w.

(** The state and the observations after a list of actions, as a
    proposition about them; [False] if a drain did not finish in ten
    rounds. *)
Definition after (user : nat -> World -> World * list Obs)
    (l : list Action) (w : World) (P : World -> list Obs -> Prop) : Prop :=
  match acts user 10 l w with
  | Some (w', obs) => P w' obs
  | None => False
  end.

(** The ids in the queue are positive, below the next id to hand out, and
    pairwise different. *)
Definition ids_fresh (a : Anim) : Prop :=
  0 < eventId_ a /\
  Forall (fun f => 0 < eventId f < eventId_ a) (queue_ a) /\
  NoDup (map eventId (queue_ a)).

(** A closure that, in the states that satisfy [Inv], makes no observation
    of a queued callback being invoked; the scheduler's drain is the only
    one to make those. *)
Definition silent (Inv : World -> Prop)
    (user : nat -> World -> World * list Obs) (cb : Callback) : Prop :=
  forall w, Inv w ->
    List.filter is_fired (snd (Simulator.invoke user cb w)) = [].

(** ** The sleep timer of the main program *)

(** The globals of the sleep timer next to the rest of the state.
    [window.setTimeout] is the host's; [timeouts_] counts the calls made so
    far, and the id it hands out is taken to be the number of the call. *)
Record Doodle := mkDoodle {
  world : World;
  sawMouseMove_ : bool;
  sleepTimerId_ : option Z;
  timeouts_ : Z
}.

(** [turing.mouseMoveListener_]. *)
Definition mouseMoveListener_ (d : Doodle) : Doodle :=
  let w := world d in
  if anim.isStopped (animState w) then
    let w1 := set_anim (anim.start (animState w)) w in
    let w2 := Simulator.resumeIfPaused w1 in
    mkDoodle w2 true (Some (timeouts_ d + 1)) (timeouts_ d + 1)
  else mkDoodle w true (sleepTimerId_ d) (timeouts_ d).

(** [turing.sleepIfInactive_], the callback of the sleep timer. *)
Definition sleepIfInactive_ (d : Doodle) : Doodle :=
  let w := world d in
  if Simulator.isRunning (simulator_ w) &&
     negb (Simulator.hasStepLimit (simulator_ w)) &&
     negb (sawMouseMove_ d)
  then
    let w1 := Simulator.pause w in
    mkDoodle (set_anim (anim.stop (animState w1)) w1) false
      (sleepTimerId_ d) (timeouts_ d)
  else mkDoodle w false (Some (timeouts_ d + 1)) (timeouts_ d + 1).


(** The track numbers of a program are indices of its array of tracks: what
    [getCurOp] and the highlights need to read [tracks_[curTrack_]]. *)
Definition tracks_ok (numTracks : nat) (p : Program) : Prop :=
  length (tracks_ p) = numTracks /\
  0 <= curTrack_ p < Z.of_nat numTracks /\
  0 <= nextTrack_ p < Z.of_nat numTracks /\
  numActiveTracks_ p <= Z.of_nat numTracks.

(** * Properties *)

(** ** The program model *)

(** C8. For all integers [track] and [pos], [setNextPos] stores the position
    and clears the end flag when [0 <= track < numActiveTracks_] and
    [0 <= pos < numOpsPerTrack_]; for any other argument it sets the end flag
    and keeps the stored next track and next position.  Nothing else of the
    program changes. *)
Theorem setNextPos_spec (n track pos : Z) (p : Program) :
  let p' := Program.setNextPos n track pos p in
  (tracks_ p' = tracks_ p /\ numActiveTracks_ p' = numActiveTracks_ p /\
   curTrack_ p' = curTrack_ p /\ curTrackPos_ p' = curTrackPos_ p) /\
  ((0 <= track < numActiveTracks_ p /\ 0 <= pos < n) ->
     nextTrack_ p' = track /\ nextTrackPos_ p' = pos /\
     nextPosIsEnd_ p' = false) /\
  (~ (0 <= track < numActiveTracks_ p /\ 0 <= pos < n) ->
     nextPosIsEnd_ p' = true /\
     nextTrack_ p' = nextTrack_ p /\ nextTrackPos_ p' = nextTrackPos_ p).
Proof.
  unfold Program.setNextPos.
  destruct (0 <=? track) eqn:E1, (track <? numActiveTracks_ p) eqn:E2,
    (0 <=? pos) eqn:E3, (pos <? n) eqn:E4; simpl;
    repeat split; try reflexivity; intros; lia.
Qed.

(** In a two-track program of eight operations, (1, 3) is stored and
    (2, 3) ends the program. *)
Lemma setNextPos_spec_witness :
  let p := Program.change 2 ping_pong (Program.new 2) in
  (nextTrack_ (Program.setNextPos 8 1 3 p) = 1 /\
   nextTrackPos_ (Program.setNextPos 8 1 3 p) = 3 /\
   nextPosIsEnd_ (Program.setNextPos 8 1 3 p) = false) /\
  (nextPosIsEnd_ (Program.setNextPos 8 2 3 p) = true /\
   nextTrack_ (Program.setNextPos 8 2 3 p) = 0 /\
   nextTrackPos_ (Program.setNextPos 8 2 3 p) = 0).
Proof.
  intros p. split.
  - apply (setNextPos_spec 8 1 3 p). simpl. lia.
  - apply (setNextPos_spec 8 2 3 p). simpl. lia.
Defined.

(** ** What one step does *)

Lemma fn_upd_same {A : Type} (r : nat) (x : A) (f : nat -> A) :
  fn_upd r x f r = x.
Proof. unfold fn_upd. now rewrite Nat.eqb_refl. Qed.

Lemma fn_upd_other {A : Type} (r r' : nat) (x : A) (f : nat -> A) :
  r' <> r -> fn_upd r x f r' = f r'.
Proof.
  intros H. unfold fn_upd. destruct (Nat.eqb_spec r' r); congruence.
Qed.

(** The guard at the head of [step] and the halting test, as [next_visit]
    sees them. *)
Lemma next_visit_Some (w : World) (pc : Z * Z) :
  next_visit w = Some pc ->
  exists tr pr,
    tape_ (simulator_ w) = Some tr /\ program_ (simulator_ w) = Some pr /\
    (stepTimerId_ (simulator_ w) =? -1) = false /\
    (Program.isNextPosEnd (Program.goToNextPos (programs w pr)) ||
       ((0 <? stepLimit_ (simulator_ w)) &&
        (stepLimit_ (simulator_ w) <? stepCount_ (simulator_ w)))) = false /\
    pc = (Program.getCurTrack (Program.goToNextPos (programs w pr)),
          Program.getCurTrackPos (Program.goToNextPos (programs w pr))).
Proof.
  unfold next_visit.
  destruct (tape_ (simulator_ w)) as [tr|]; [|discriminate].
  destruct (program_ (simulator_ w)) as [pr|]; [|discriminate].
  destruct (stepTimerId_ (simulator_ w) =? -1); [discriminate|].
  destruct (Program.isNextPosEnd _ || _) eqn:E; [discriminate|].
  intros [= <-]. exists tr, pr. auto.
Qed.

(** A step that passes the guard and does not halt: the new state, in terms
    of what [dispatch] answers. *)
Lemma step_proceeds (user : nat -> World -> World * list Obs) (w : World)
    (tr pr : nat) :
  tape_ (simulator_ w) = Some tr ->
  program_ (simulator_ w) = Some pr ->
  (stepTimerId_ (simulator_ w) =? -1) = false ->
  (Program.isNextPosEnd (Program.goToNextPos (programs w pr)) ||
     ((0 <? stepLimit_ (simulator_ w)) &&
      (stepLimit_ (simulator_ w) <? stepCount_ (simulator_ w)))) = false ->
  let s := simulator_ w in
  let prog1 := Program.goToNextPos (programs w pr) in
  let op := Simulator.strip_marker (Program.getCurOp prog1) in
  let d := Simulator.dispatch (numOpsPerTrack_ w) op prog1 (tapes w tr) in
  let w' := fst (Simulator.step user w) in
  snd (Simulator.step user w) = [] /\
  programs w' pr =
    (if snd d then
       Program.setNextPos (numOpsPerTrack_ w)
         (Program.getCurTrack (fst (fst d)))
         (Program.getCurTrackPos (fst (fst d)) + 1) (fst (fst d))
     else fst (fst d)) /\
  tapes w' tr = snd (fst d) /\
  (forall r, r <> pr -> programs w' r = programs w r) /\
  (forall r, r <> tr -> tapes w' r = tapes w r) /\
  stepCount_ (simulator_ w') = stepCount_ s + 1 /\
  runCount_ (simulator_ w') =
    runCount_ (if 0 <? stepLimit_ s
               then Simulator.speedUpBoringLoops_ prog1 s else s) /\
  speeds_ (simulator_ w') =
    speeds_ (if 0 <? stepLimit_ s
             then Simulator.speedUpBoringLoops_ prog1 s else s).
Proof.
  intros Ht Hp Hid Hgo. cbv zeta. unfold Simulator.step.
  rewrite Ht, Hp, Hid. cbn [stepLimit_ stepCount_]. rewrite Hgo.
  destruct (Simulator.dispatch _ _ _ _) as [[prog2 t2] imp].
  destruct (anim.delay _ _ _) as [id a]. cbn [fst snd].
  destruct (0 <? stepLimit_ (simulator_ w)); cbn;
    rewrite !fn_upd_same;
    (repeat split; try reflexivity; intros; now apply fn_upd_other).
Qed.

(** A step that passes the guard and does not halt: the event it queues and
    the fields of the simulator it keeps. *)
Lemma step_proceeds_timer (user : nat -> World -> World * list Obs)
    (w : World) (tr pr : nat) :
  tape_ (simulator_ w) = Some tr ->
  program_ (simulator_ w) = Some pr ->
  (stepTimerId_ (simulator_ w) =? -1) = false ->
  (Program.isNextPosEnd (Program.goToNextPos (programs w pr)) ||
     ((0 <? stepLimit_ (simulator_ w)) &&
      (stepLimit_ (simulator_ w) <? stepCount_ (simulator_ w)))) = false ->
  let s := simulator_ w in
  let op :=
    Simulator.strip_marker
      (Program.getCurOp (Program.goToNextPos (programs w pr))) in
  let w' := fst (Simulator.step user w) in
  let r :=
    anim.delay CbStep
      (inject_Z (Simulator.stepTimeFor op (speeds_ (simulator_ w'))))
      (animState w) in
  animState w' = snd r /\
  stepTimerId_ (simulator_ w') = fst r /\
  program_ (simulator_ w') = Some pr /\
  tape_ (simulator_ w') = Some tr /\
  doneCallback_ (simulator_ w') = doneCallback_ s /\
  stepLimit_ (simulator_ w') = stepLimit_ s /\
  paused_ (simulator_ w') = paused_ s /\
  numTracks_ w' = numTracks_ w /\
  numOpsPerTrack_ w' = numOpsPerTrack_ w.
Proof.
  intros Ht Hp Hid Hgo. cbv zeta. unfold Simulator.step.
  rewrite Ht, Hp, Hid. cbn [stepLimit_ stepCount_]. rewrite Hgo.
  destruct (Simulator.dispatch _ _ _ _) as [[prog2 t2] imp].
  unfold anim.delay, anim.delayTicks.
  destruct (0 <? stepLimit_ (simulator_ w)); cbn; auto 10.
Qed.

(** [dispatch] leaves the operations and the current position of the
    program alone. *)
Lemma dispatch_keeps_tracks (n : Z) (op : option string) (prog : Program)
    (t : Tape) :
  let prog' := fst (fst (Simulator.dispatch n op prog t)) in
  tracks_ prog' = tracks_ prog /\
  numActiveTracks_ prog' = numActiveTracks_ prog /\
  curTrack_ prog' = curTrack_ prog /\
  curTrackPos_ prog' = curTrackPos_ prog.
Proof.
  cbv zeta. unfold Simulator.dispatch, Program.setNextPos,
    Program.setNextPosNaN.
  repeat match goal with
         | |- context [if ?b then _ else _] => destruct b
         | |- context [match ?o with Some _ => _ | None => _ end] => destruct o
         end; cbn; auto.
Qed.

(** A step that executes an operation leaves the operations of every
    program as they are. *)
Lemma step_proceeds_tracks (user : nat -> World -> World * list Obs)
    (w : World) (tr pr : nat) :
  tape_ (simulator_ w) = Some tr ->
  program_ (simulator_ w) = Some pr ->
  (stepTimerId_ (simulator_ w) =? -1) = false ->
  (Program.isNextPosEnd (Program.goToNextPos (programs w pr)) ||
     ((0 <? stepLimit_ (simulator_ w)) &&
      (stepLimit_ (simulator_ w) <? stepCount_ (simulator_ w)))) = false ->
  forall r,
    tracks_ (programs (fst (Simulator.step user w)) r) = tracks_ (programs w r).
Proof.
  intros Ht Hp Hid Hgo r.
  destruct (step_proceeds user w tr pr Ht Hp Hid Hgo)
    as (_ & Hprog & _ & Hprogs & _).
  destruct (Nat.eq_dec r pr) as [-> | Hne]; [|now rewrite (Hprogs r Hne)].
  rewrite Hprog.
  match goal with
  | |- context [Simulator.dispatch ?n ?op ?p0 ?t] =>
      destruct (dispatch_keeps_tracks n op p0 t) as (Hk & _)
  end.
  assert (Hgo1 : tracks_ (Program.goToNextPos (programs w pr))
                 = tracks_ (programs w pr)).
  { unfold Program.goToNextPos. now destruct (nextPosIsEnd_ (programs w pr)). }
  rewrite <- Hgo1, <- Hk.
  destruct (snd (Simulator.dispatch _ _ _ _)); [|reflexivity].
  unfold Program.setNextPos.
  match goal with
  | |- context [if ?b then _ else _] => destruct b
  end; reflexivity.
Qed.

(** What [dispatch] answers for the four jump-down operations. *)
Lemma dispatch_down (n : Z) (op : string) (prog : Program) (t : Tape) :
  op = "D" \/ op = "D0" \/ op = "D1" \/ op = "D_" ->
  Simulator.dispatch n (Some op) prog t =
    if String.eqb op "D" ||
       String.eqb op (String.append "D" (Tape.getCurSymbol t))
    then (Program.setNextPos n (Program.getCurTrack prog + 1)
            (Program.getCurTrackPos prog) prog, t, false)
    else (prog, t, true).
Proof.
  intros [-> | [-> | [-> | ->]]]; unfold Simulator.dispatch;
    cbn -[Program.setNextPos Tape.getCurSymbol String.eqb];
    try reflexivity;
    change (String.eqb ?a ?b) with (String.eqb a b);
    rewrite String.eqb_sym;
    destruct (Tape.getCurSymbol t) as [|c [|c' s]]; try reflexivity;
    cbn; rewrite ?andb_false_r; try reflexivity;
    destruct (Ascii.eqb _ c); reflexivity.
Qed.

(** What [setNextPos] leaves in the program, by the range test it makes. *)
Lemma setNextPos_cases (n track pos : Z) (p : Program) :
  let p' := Program.setNextPos n track pos p in
  tracks_ p' = tracks_ p /\ numActiveTracks_ p' = numActiveTracks_ p /\
  curTrack_ p' = curTrack_ p /\ curTrackPos_ p' = curTrackPos_ p /\
  ((0 <= track < numActiveTracks_ p /\ 0 <= pos < n) ->
     nextTrack_ p' = track /\ nextTrackPos_ p' = pos /\
     nextPosIsEnd_ p' = false) /\
  (~ (0 <= track < numActiveTracks_ p /\ 0 <= pos < n) ->
     nextTrack_ p' = nextTrack_ p /\ nextTrackPos_ p' = nextTrackPos_ p /\
     nextPosIsEnd_ p' = true).
Proof.
  cbv zeta. unfold Program.setNextPos.
  destruct ((0 <=? track) && (track <? numActiveTracks_ p) &&
            (0 <=? pos) && (pos <? n)) eqn:E; cbn;
    (do 4 (split; [reflexivity|])); split; intros H.
  - auto.
  - exfalso. apply H. lia.
  - exfalso. lia.
  - auto.
Qed.

(** C9, as the code has it.  A step whose current operation, without the
    marker of an editable operation, is [D] or [D0], [D1], [D_]: if the
    operation is the bare [D], or the symbol under the head is the one the
    operation names, the step asks [setNextPos] for (current track + 1,
    current index) and makes no implicit advance; otherwise it only makes
    the implicit advance, asking [setNextPos] for (current track, current
    index + 1).  In both cases the next position becomes the one asked for,
    with the end flag clear, only if that is a position of the program
    ([0 <= track < numActiveTracks_] and [0 <= index < numOpsPerTrack_]);
    if it is not (a jump down from the last active track, an advance past
    the end of the track) the next position stays what it was and the end
    flag is set, so that the next step ends the run.  After the step the
    current position is that of the operation executed, and the operations
    and every tape are as before. *)
Theorem step_jump_down (user : nat -> World -> World * list Obs) (w : World)
    (tr pr : nat) (pc : Z * Z) (op : string) :
  tape_ (simulator_ w) = Some tr ->
  program_ (simulator_ w) = Some pr ->
  next_visit w = Some pc ->
  Simulator.strip_marker
    (Program.getCurOp (Program.goToNextPos (programs w pr))) = Some op ->
  (op = "D" \/
   exists sym, (sym = "0" \/ sym = "1" \/ sym = "_") /\
               op = String.append "D" sym) ->
  let prog1 := Program.goToNextPos (programs w pr) in
  let taken :=
    op = "D" \/ op = String.append "D" (Tape.getCurSymbol (tapes w tr)) in
  let w' := fst (Simulator.step user w) in
  let p' := programs w' pr in
  let valid track pos :=
    0 <= track < numActiveTracks_ prog1 /\ 0 <= pos < numOpsPerTrack_ w in
  let lands track pos :=
    (valid track pos ->
       nextTrack_ p' = track /\ nextTrackPos_ p' = pos /\
       nextPosIsEnd_ p' = false) /\
    (~ valid track pos ->
       nextTrack_ p' = nextTrack_ prog1 /\
       nextTrackPos_ p' = nextTrackPos_ prog1 /\
       nextPosIsEnd_ p' = true) in
  (forall r, tapes w' r = tapes w r) /\
  (tracks_ p' = tracks_ prog1 /\ numActiveTracks_ p' = numActiveTracks_ prog1 /\
   curTrack_ p' = curTrack_ prog1 /\ curTrackPos_ p' = curTrackPos_ prog1) /\
  (taken ->
     p' = Program.setNextPos (numOpsPerTrack_ w) (curTrack_ prog1 + 1)
            (curTrackPos_ prog1) prog1 /\
     lands (curTrack_ prog1 + 1) (curTrackPos_ prog1)) /\
  (~ taken ->
     p' = Program.setNextPos (numOpsPerTrack_ w) (curTrack_ prog1)
            (curTrackPos_ prog1 + 1) prog1 /\
     lands (curTrack_ prog1) (curTrackPos_ prog1 + 1)).
Proof.
  intros Ht Hp Hv Hop Hd. cbv zeta.
  destruct (next_visit_Some w pc Hv) as (tr' & pr' & Ht' & Hp' & Hid & Hgo & _).
  rewrite Ht in Ht'. rewrite Hp in Hp'.
  injection Ht' as <-. injection Hp' as <-.
  destruct (step_proceeds user w tr pr Ht Hp Hid Hgo)
    as (_ & Hprog & Htape & _ & Hothers & _).
  rewrite Hop in Hprog, Htape.
  assert (Hd' : op = "D" \/ op = "D0" \/ op = "D1" \/ op = "D_").
  { destruct Hd as [-> | (sym & [-> | [-> | ->]] & ->)]; cbn; auto. }
  rewrite (dispatch_down _ op _ _ Hd') in Hprog, Htape.
  set (prog1 := Program.goToNextPos (programs w pr)) in *.
  destruct (String.eqb op "D" || String.eqb op _) eqn:E;
    cbn [fst snd] in Hprog, Htape; unfold Program.getCurTrack,
      Program.getCurTrackPos in Hprog;
    match type of Hprog with
    | _ = Program.setNextPos ?n ?t ?q ?p0 =>
        destruct (setNextPos_cases n t q p0)
          as (Hk1 & Hk2 & Hk3 & Hk4 & Hin & Hout)
    end;
    rewrite <- Hprog in Hk1, Hk2, Hk3, Hk4, Hin, Hout.
  - split; [|split; [auto|split]].
    + intros r. destruct (Nat.eq_dec r tr) as [-> | Hne]; auto.
    + intros _. split; [exact Hprog|]. split; [exact Hin | exact Hout].
    + intros Hn. exfalso. apply Hn.
      apply orb_true_iff in E as [E | E]; apply String.eqb_eq in E; auto.
  - split; [|split; [auto|split]].
    + intros r. destruct (Nat.eq_dec r tr) as [-> | Hne]; auto.
    + intros [H | H]; apply String.eqb_eq in H; rewrite H in E;
        rewrite ?orb_true_r in E; discriminate.
    + intros _. split; [exact Hprog|]. split; [exact Hin | exact Hout].
Qed.

(** The first step of the [D]/[U] program: [D] at (0, 0) is a bare jump and
    track 1 is active, so the next position becomes (1, 0), the end flag
    stays clear and the tape stays as it is. *)
Lemma step_jump_down_witness :
  let w := Simulator.run 0 0 NORMAL None (setup ping_pong "" 40) in
  let p' := programs (fst (Simulator.step no_user w)) 0%nat in
  (forall r, tapes (fst (Simulator.step no_user w)) r = tapes w r) /\
  nextTrack_ p' = 1 /\ nextTrackPos_ p' = 0 /\ nextPosIsEnd_ p' = false.
Proof.
  intros w p'.
  destruct (step_jump_down no_user w 0 0 (0, 0) "D"
              eq_refl eq_refl eq_refl eq_refl (or_introl eq_refl))
    as (H1 & _ & H2 & _).
  split; [exact H1|].
  destruct H2 as (_ & Hin & _); [left; reflexivity|].
  apply Hin. vm_compute. repeat split; discriminate.
Defined.

(** C9 as stated fails for a jump down from the last active track.  The
    program has the one track [D]: the first step executes the bare [D] at
    (0, 0), and the next position is not (1, 0) afterwards: it is still
    (0, 0), with the end flag set, and the step after that ends the run. *)
Lemma jump_down_on_last_track_keeps_next_position :
  let w := Simulator.run 0 0 NORMAL None (setup [["D"]] "" 0) in
  let prog1 := Program.goToNextPos (programs w 0%nat) in
  let w' := fst (Simulator.step no_user w) in
  let p' := programs w' 0%nat in
  next_visit w = Some (0, 0) /\
  Simulator.strip_marker (Program.getCurOp prog1) = Some "D" /\
  (curTrack_ prog1 + 1, curTrackPos_ prog1) = (1, 0) /\
  (nextTrack_ p', nextTrackPos_ p') = (0, 0) /\
  nextPosIsEnd_ p' = true /\
  next_visit w' = None /\
  Simulator.isRunning (simulator_ (fst (Simulator.step no_user w'))) = false.
Proof.
  vm_compute. repeat split; reflexivity.
Qed.

(** ** Stopping *)

Lemma cancel_step_timer_frame (w : World) :
  programs (Simulator.cancel_step_timer w) = programs w /\
  tapes (Simulator.cancel_step_timer w) = tapes w /\
  simulator_ (Simulator.cancel_step_timer w) = simulator_ w /\
  numTracks_ (Simulator.cancel_step_timer w) = numTracks_ w /\
  numOpsPerTrack_ (Simulator.cancel_step_timer w) = numOpsPerTrack_ w.
Proof.
  unfold Simulator.cancel_step_timer.
  destruct (negb _); cbn; auto.
Qed.

(** [stop] when no done callback is registered. *)
Lemma stop_without_callback (user : nat -> World -> World * list Obs)
    (w : World) :
  doneCallback_ (simulator_ w) = None ->
  let s := simulator_ w in
  Simulator.stop user w =
    (set_sim (mkSimulator None None (-1) None (stepCount_ s) (stepLimit_ s)
                (runCount_ s) (speeds_ s) (paused_ s))
       (Simulator.cancel_step_timer w), []).
Proof.
  intros H. cbv zeta. unfold Simulator.stop.
  destruct (cancel_step_timer_frame w) as (_ & _ & -> & _).
  rewrite H. reflexivity.
Qed.








(** ** The frame-rate throttle *)

(** C7, as the code has it.  While the period is positive and at most the
    slowest one (1/20 s), [throttleFrameRate_] never lowers it and never
    raises it above the slowest one.  When the overrun counter exceeds 20
    the period becomes the smaller of 1/20 s and 1.2 times the period, and
    the counter is reset to zero: that is strictly more than before as long
    as the period was below 1/20 s, and the same once it has reached
    1/20 s.  In every other case the period is unchanged.  [reset] restores
    the fastest period (1/60 s); scheduling, cancelling, sorting, finishing
    a tick, [start] and [stop] keep the period. *)
Theorem throttle_period (now : Z) (a : Anim) :
  (0 < msPerFrame_ a)%Q ->
  (msPerFrame_ a <= anim.MIN_FPS_MS_)%Q ->
  let a' := anim.throttleFrameRate_ now a in
  let crossed := throttle_active a = true /\ 20 < overrun_count now a in
  (msPerFrame_ a <= msPerFrame_ a')%Q /\
  (msPerFrame_ a' <= anim.MIN_FPS_MS_)%Q /\
  (crossed ->
     msPerFrame_ a' = Qmin anim.MIN_FPS_MS_ (msPerFrame_ a * (12 # 10)) /\
     tooSlowTicks_ a' = 0 /\
     ((msPerFrame_ a < anim.MIN_FPS_MS_)%Q ->
      (msPerFrame_ a < msPerFrame_ a')%Q) /\
     ((msPerFrame_ a == anim.MIN_FPS_MS_)%Q ->
      (msPerFrame_ a' == msPerFrame_ a)%Q)) /\
  (~ crossed -> msPerFrame_ a' = msPerFrame_ a) /\
  msPerFrame_ (anim.reset a) = anim.MAX_FPS_MS_ /\
  (forall cb t id n,
     msPerFrame_ (snd (anim.delayTicks cb t a)) = msPerFrame_ a /\
     msPerFrame_ (anim.cancel id a) = msPerFrame_ a /\
     msPerFrame_ (anim.sort_if_dirty a) = msPerFrame_ a /\
     msPerFrame_ (anim.finish_tick n a) = msPerFrame_ a /\
     msPerFrame_ (anim.start a) = msPerFrame_ a /\
     msPerFrame_ (anim.stop a) = msPerFrame_ a).
Proof.
  intros Hpos Hmax. cbv zeta.
  unfold anim.throttleFrameRate_, throttle_active, overrun_count.
  set (m := msPerFrame_ a) in *.
  assert (Hmin : (m <= Qmin anim.MIN_FPS_MS_ (m * (12 # 10)))%Q /\
                 (Qmin anim.MIN_FPS_MS_ (m * (12 # 10)) <= anim.MIN_FPS_MS_)%Q /\
                 ((m < anim.MIN_FPS_MS_)%Q ->
                  (m < Qmin anim.MIN_FPS_MS_ (m * (12 # 10)))%Q) /\
                 ((m == anim.MIN_FPS_MS_)%Q ->
                  (Qmin anim.MIN_FPS_MS_ (m * (12 # 10)) == m)%Q)).
  { destruct (Q.min_spec anim.MIN_FPS_MS_ (m * (12 # 10))) as [[H1 H2] | [H1 H2]];
      rewrite H2; unfold anim.MIN_FPS_MS_ in *; repeat split; intros; lra. }
  destruct Hmin as (Hge & Hle & Hlt & Heq).
  assert (Hrest : msPerFrame_ (anim.reset a) = anim.MAX_FPS_MS_ /\
    (forall cb t id n,
     msPerFrame_ (snd (anim.delayTicks cb t a)) = m /\
     msPerFrame_ (anim.cancel id a) = m /\
     msPerFrame_ (anim.sort_if_dirty a) = m /\
     msPerFrame_ (anim.finish_tick n a) = m /\
     msPerFrame_ (anim.start a) = m /\
     msPerFrame_ (anim.stop a) = m)).
  { split; [reflexivity|]. intros. repeat split; try reflexivity.
    unfold anim.sort_if_dirty. destruct (queueDirty_ a); reflexivity. }
  destruct Hrest as [Hreset Hkeep].
  refine (let Hfour := _ in
          conj (proj1 Hfour) (conj (proj1 (proj2 Hfour))
            (conj (proj1 (proj2 (proj2 Hfour)))
               (conj (proj2 (proj2 (proj2 Hfour))) (conj Hreset Hkeep))))).
  destruct ((30 <? curTick_ a) && negb (lastTickStartTime_ a =? 0)) eqn:Eact.
  - set (slow := if Qle_bool _ _ then _ else _).
    destruct (20 <? slow) eqn:Eslow; cbn [msPerFrame_ tooSlowTicks_].
    + split; [exact Hge | split; [exact Hle | split]].
      * intros _. auto.
      * intros Hn. exfalso. apply Hn. split; [reflexivity | lia].
    + fold m. split; [lra | split; [lra | split]].
      * intros [_ Hc]. lia.
      * intros _. reflexivity.
  - cbn [msPerFrame_]. fold m. split; [lra | split; [lra | split]].
    + intros [Hc _]. discriminate.
    + intros _. reflexivity.
Qed.

(** From the state after [turing.init]: a first frame measures nothing and
    keeps the fastest period. *)
Lemma throttle_period_witness :
  (msPerFrame_ (animState boot)
   <= msPerFrame_ (anim.throttleFrameRate_ 1000 (animState boot)))%Q /\
  msPerFrame_ (anim.throttleFrameRate_ 1000 (animState boot))
  = msPerFrame_ (animState boot).
Proof.
  destruct (throttle_period 1000 (animState boot)) as (H1 & _ & _ & H2 & _).
  - reflexivity.
  - vm_compute. discriminate.
  - split; [exact H1 | apply H2]. intros [H _]. vm_compute in H. discriminate.
Defined.

(** C7 as stated fails at the slowest rate.  After 198 frames that each
    took 100 ms the period is 1/20 s and the overrun counter is 20; the
    next slow frame takes the counter over the threshold and resets it, and
    the period is not raised. *)
Lemma throttle_at_slowest_rate_does_not_increase :
  after no_user (slow_frames 1000 198) boot
    (fun w _ =>
       let a := animState w in
       let now := 1000 + 100 * 198 in
       throttle_active a = true /\ 20 < overrun_count now a /\
       tooSlowTicks_ (anim.throttleFrameRate_ now a) = 0 /\
       ~ (msPerFrame_ a < msPerFrame_ (anim.throttleFrameRate_ now a))%Q).
Proof.
  vm_compute. repeat split; try discriminate.
Qed.

(** ** One step event at a time *)

(** [run] while a step event is pending does nothing at all. *)
Lemma run_while_running (program tape : nat) (speed : SpeedSetting)
    (cb : option nat) (w : World) :
  Simulator.isRunning (simulator_ w) = true ->
  Simulator.run program tape speed cb w = w.
Proof.
  intros H. unfold Simulator.run. now rewrite H.
Qed.

(** C1 fails on the code.  [pause] on an idle simulator sets [paused_];
    [run] does not clear it, so [resumeIfPaused] queues a second step event
    next to the one [run] queued.  Both fire in the next frame, each runs a
    step and queues its successor, and two step events stay pending. *)
Theorem resume_after_run_queues_second_step :
  let calls := [APause; ARun 0 0 NORMAL None; AResume] in
  after no_user calls (setup ping_pong "" 0)
    (fun w obs => obs = [] /\ pending_steps w = 2%nat) /\
  after no_user (calls ++ [AFrame 1000]) (setup ping_pong "" 0)
    (fun w obs =>
       obs = [Fired 1 0; Fired 2 0] /\
       stepCount_ (simulator_ w) = 2 /\ pending_steps w = 2%nat).
Proof.
  vm_compute. repeat split; reflexivity.
Qed.

(** ** The step limit *)

(** A step that finds the count of steps equal to the limit passes the
    halting test and runs: afterwards the count is above the limit. *)
Lemma step_at_limit_still_runs (user : nat -> World -> World * list Obs)
    (w : World) (tr pr : nat) :
  tape_ (simulator_ w) = Some tr ->
  program_ (simulator_ w) = Some pr ->
  stepTimerId_ (simulator_ w) <> -1 ->
  Program.isNextPosEnd (Program.goToNextPos (programs w pr)) = false ->
  stepCount_ (simulator_ w) = stepLimit_ (simulator_ w) ->
  stepCount_ (simulator_ (fst (Simulator.step user w)))
  = stepLimit_ (simulator_ w) + 1.
Proof.
  intros Ht Hp Hid Hend Hcount.
  destruct (step_proceeds user w tr pr Ht Hp) as (_ & _ & _ & _ & _ & H & _).
  - lia.
  - rewrite Hend, Hcount. cbn. rewrite Z.ltb_irrefl. apply andb_false_r.
  - rewrite H. lia.
Qed.

(** C2 fails on the code.  With a step limit of 40 the [D]/[U] program,
    which never ends, has run 41 steps when it is halted: [step] compares
    the count with the limit before it adds one, so the step that finds the
    count at 40 still runs.  The 42nd step event halts the run and the done
    callback is invoked once. *)
Theorem step_limit_40_runs_41_steps :
  after no_user (ARun 0 0 NORMAL (Some 7%nat) :: frames 1000 700)
    (setup ping_pong "" 40)
    (fun w obs =>
       stepCount_ (simulator_ w) = 41 /\
       length (List.filter is_fired obs) = 42%nat /\
       count_done 7 obs = 1%nat /\
       Simulator.isRunning (simulator_ w) = false /\
       pending_steps w = 0%nat).
Proof.
  vm_compute. repeat split; reflexivity.
Qed.

(** ** Cancelling during a drain *)

(** Outside a drain a fired event is no longer in the queue, and [cancel]
    with an id that no queued event has changes nothing. *)
Lemma cancel_unknown_id (id : Z) (a : Anim) :
  Forall (fun f => eventId f <> id) (queue_ a) ->
  anim.cancel id a = a.
Proof.
  intros H. unfold anim.cancel.
  assert (Hq : anim.remove_event id (queue_ a) = queue_ a).
  { induction H as [|f q Hf _ IH]; [reflexivity|].
    cbn. destruct (eventId f =? id) eqn:E; [lia | now rewrite IH]. }
  rewrite Hq. destruct a; reflexivity.
Qed.

(** C5 fails on the code.  Three events are due in the same tick; the second
    one's callback cancels the id of the first, which has fired already but
    is still in the queue until the drain ends.  [cancel] splices it out,
    the third event moves to the index the loop has passed, the loop ends,
    and the final splice removes the third event with the second: it is
    neither invoked nor pending.  Without the [cancel] all three fire. *)
Theorem cancel_of_fired_event_drops_due_event :
  let a1 := snd (anim.delay (CbUser 1) 0 (animState boot)) in
  let a2 := snd (anim.delay (CbUser 2) 0 a1) in
  let a3 := snd (anim.delay (CbUser 3) 0 a2) in
  map eventId (queue_ a3) = [1; 2; 3] /\
  after demo_user [AFrame 1000] (set_anim a3 boot)
    (fun w obs =>
       obs = [Fired 1 0; Fired 2 0] /\ queue_ (animState w) = []) /\
  after no_user [AFrame 1000] (set_anim a3 boot)
    (fun w obs =>
       obs = [Fired 1 0; Fired 2 0; Fired 3 0] /\
       queue_ (animState w) = []).
Proof.
  vm_compute. repeat split; reflexivity.
Qed.

(** ** Boring loops *)

(** C3, as the code has it.  With a step limit set, a step that executes the
    operation at position [pc] adds one to the count of [pc] and leaves the
    other counts alone.  If the count was more than 6 before (the position
    is visited for the eighth time or later, its seventh revisit) the speed
    is set to Ludicrous; if it was 5 or 6 the speed is set to Fast, whatever
    it was; otherwise the speed is kept.  Counts only grow during a run, so
    from its seventh revisit on every visit to a position sets Ludicrous.
    [run], when it takes effect, empties the counts and selects the speed it
    is given; [pause] and [resumeIfPaused] keep both. *)
Theorem boring_loop_speed (user : nat -> World -> World * list Obs)
    (w : World) (pc : Z * Z) :
  0 < stepLimit_ (simulator_ w) ->
  next_visit w = Some pc ->
  let c := default 0 (runCount_ (simulator_ w) !! pc) in
  let s' := simulator_ (fst (Simulator.step user w)) in
  runCount_ s' !! pc = Some (c + 1) /\
  (forall pc', pc' <> pc ->
     runCount_ s' !! pc' = runCount_ (simulator_ w) !! pc') /\
  (6 < c -> speeds_ s' = SPEED_CONFIG LUDICROUS) /\
  (4 < c <= 6 -> speeds_ s' = SPEED_CONFIG FAST) /\
  (c <= 4 -> speeds_ s' = speeds_ (simulator_ w)) /\
  (forall w2 program tape speed cb,
     Simulator.isRunning (simulator_ w2) = false ->
     runCount_ (simulator_ (Simulator.run program tape speed cb w2)) = ∅ /\
     speeds_ (simulator_ (Simulator.run program tape speed cb w2))
     = SPEED_CONFIG speed) /\
  (forall w2,
     runCount_ (simulator_ (Simulator.pause w2)) = runCount_ (simulator_ w2) /\
     speeds_ (simulator_ (Simulator.pause w2)) = speeds_ (simulator_ w2) /\
     runCount_ (simulator_ (Simulator.resumeIfPaused w2))
     = runCount_ (simulator_ w2) /\
     speeds_ (simulator_ (Simulator.resumeIfPaused w2))
     = speeds_ (simulator_ w2)).
Proof.
  intros Hlim Hv. cbv zeta.
  destruct (next_visit_Some w pc Hv) as (tr & pr & Ht & Hp & Hid & Hgo & ->).
  destruct (step_proceeds user w tr pr Ht Hp Hid Hgo)
    as (_ & _ & _ & _ & _ & _ & Hrc & Hsp).
  rewrite Hrc, Hsp.
  assert (Hl : (0 <? stepLimit_ (simulator_ w)) = true) by lia.
  rewrite Hl. unfold Simulator.speedUpBoringLoops_.
  cbn [runCount_ speeds_].
  unfold VERY_BORING_REPEAT_COUNT, SOMEWHAT_BORING_REPEAT_COUNT.
  set (pc := (Program.getCurTrack _, Program.getCurTrackPos _)).
  set (c := default 0 (runCount_ (simulator_ w) !! pc)).
  split; [apply lookup_insert_eq|].
  split; [intros pc' Hne; now apply lookup_insert_ne|].
  split; [intros H; destruct (6 <? c) eqn:E; [reflexivity | lia]|].
  split; [intros H; destruct (6 <? c) eqn:E; [lia|];
          destruct (4 <? c) eqn:E'; [reflexivity | lia]|].
  split; [intros H; destruct (6 <? c) eqn:E; [lia|];
          destruct (4 <? c) eqn:E'; [lia | reflexivity]|].
  split.
  - intros w2 program tape speed cb H. unfold Simulator.run. rewrite H.
    destruct (anim.delay _ _ _) as [id a]. split; reflexivity.
  - intros w2. unfold Simulator.pause, Simulator.resumeIfPaused.
    destruct (cancel_step_timer_frame w2) as (_ & _ & -> & _).
    destruct (paused_ (simulator_ w2));
      [destruct (anim.delay _ _ _) as [id a]|]; repeat split; reflexivity.
Qed.

(** The first step of a run with a step limit of 40: the count of (0, 0)
    becomes 1 and the speed stays the one [run] selected. *)
Lemma boring_loop_speed_witness :
  let w := Simulator.run 0 0 NORMAL None (setup ping_pong "" 40) in
  runCount_ (simulator_ (fst (Simulator.step no_user w))) !! (0, 0) = Some 1 /\
  speeds_ (simulator_ (fst (Simulator.step no_user w))) = SPEED_CONFIG NORMAL.
Proof.
  intros w.
  destruct (boring_loop_speed no_user w (0, 0)) as (H1 & _ & _ & _ & H2 & _).
  - reflexivity.
  - reflexivity.
  - split; [exact H1 | apply H2; vm_compute; discriminate].
Defined.

(** C3 as stated fails: the forced speed goes back from Ludicrous to Fast
    within one run.  In the loop with a detour, run with a step limit of 40
    on a tape holding 111110001, the positions of the upper track are
    executed in every round and those of the detour only over a 1.  After
    805 frames step 36 has run: (0, 0) has been executed nine times and the
    speed is Ludicrous.  Step 37 executes (1, 1), which has been executed
    five times before, and sets the speed to Fast. *)
Lemma forced_speed_reverts_to_fast :
  let w0 := Simulator.run 0 0 NORMAL None (setup detour_loop "111110001" 40) in
  after no_user (frames 1000 805) w0
    (fun w obs =>
       stepCount_ (simulator_ w) = 36 /\
       runCount_ (simulator_ w) !! (0, 0) = Some 9 /\
       runCount_ (simulator_ w) !! (1, 1) = Some 5 /\
       next_visit w = Some (1, 1) /\
       speeds_ (simulator_ w) = SPEED_CONFIG LUDICROUS /\
       count_done 0 obs = 0%nat) /\
  after no_user (frames 1000 811) w0
    (fun w obs =>
       stepCount_ (simulator_ w) = 37 /\
       Simulator.isRunning (simulator_ w) = true /\
       speeds_ (simulator_ w) = SPEED_CONFIG FAST /\
       speeds_ (simulator_ w) <> SPEED_CONFIG LUDICROUS).
Proof.
  vm_compute. repeat split; try reflexivity; discriminate.
Qed.

(** ** Events due in a frame *)

Lemma frame_leb_trans :
  Transitive (fun x y : Frame => is_true (FrameOrder.leb x y)).
Proof.
  intros x y z. unfold is_true, FrameOrder.leb.
  destruct (ticks x =? ticks y) eqn:E1, (ticks y =? ticks z) eqn:E2,
    (ticks x =? ticks z) eqn:E3; lia.
Qed.

Lemma frame_leb_ticks (x y : Frame) :
  is_true (FrameOrder.leb x y) -> ticks x <= ticks y.
Proof.
  unfold is_true, FrameOrder.leb.
  destruct (ticks x =? ticks y) eqn:E; lia.
Qed.

(** A sorted queue is the events due at tick [T] followed by the events
    that are not. *)
Lemma sorted_queue_split (T : Z) (q : list Frame) :
  Sorted.StronglySorted (fun x y => is_true (FrameOrder.leb x y)) q ->
  exists due rest,
    q = due ++ rest /\
    Forall (fun f => ticks f <= T) due /\
    Forall (fun f => T < ticks f) rest.
Proof.
  induction 1 as [|a l Hs IH Ha].
  - exists [], []. repeat split; constructor.
  - destruct IH as (due & rest & -> & Hdue & Hrest).
    destruct (Z_le_gt_dec (ticks a) T) as [Hle | Hgt].
    + exists (a :: due), rest. repeat split; auto.
    + exists [], (a :: due ++ rest). repeat split; auto.
      constructor; [lia|].
      rewrite Forall_forall in Ha. apply Forall_forall. intros f Hf.
      specialize (Ha f Hf). apply frame_leb_ticks in Ha. lia.
Qed.

Lemma throttle_keeps_queue (now : Z) (a : Anim) :
  let a' := anim.throttleFrameRate_ now a in
  queue_ a' = queue_ a /\ curTick_ a' = curTick_ a /\
  queueDirty_ a' = queueDirty_ a /\ stopped_ a' = stopped_ a.
Proof.
  cbv zeta. unfold anim.throttleFrameRate_.
  destruct (_ && _); [destruct (20 <? _)|]; cbn; auto.
Qed.

(** The drain over a queue whose due events all have deferring callbacks,
    started in a state of [Inv]: it invokes every one of them, in order,
    and stops at the first event that is not due. *)
Lemma drain_due (user : nat -> World -> World * list Obs)
    (Inv : World -> Prop) (T : Z) :
  forall (due pre rest : list Frame) (w : World) (n fuel : nat),
    Inv w ->
    curTick_ (animState w) = T ->
    queue_ (animState w) = pre ++ due ++ rest ->
    Forall (fun f => ticks f <= T /\ deferring Inv user (call f)) due ->
    Forall (fun f => T < ticks f) rest ->
    (length due < fuel)%nat ->
    exists w' obs extra,
      Simulator.drain user fuel (length pre) n w
        = Some (w', (n + length due)%nat, obs) /\
      queue_ (animState w') = pre ++ due ++ rest ++ extra /\
      Forall (fun f => T < ticks f) extra /\
      curTick_ (animState w') = T /\
      Inv w' /\
      (forall f, In f due -> In (Fired (eventId f) T) obs).
Proof.
  induction due as [|f due IH];
    intros pre rest w n fuel Hinv HT Hq Hdue Hrest Hfuel.
  - destruct fuel as [|fuel]; [cbn in Hfuel; lia|].
    exists w, [], []. cbn [Simulator.drain app length].
    rewrite Hq. cbn [app]. rewrite Nat.add_0_r, app_nil_r.
    assert (Hlook : (pre ++ rest) !! length pre = rest !! 0%nat).
    { rewrite lookup_app_r by lia. now rewrite Nat.sub_diag. }
    rewrite Hlook. split; [|repeat split; auto; intros ? []].
    destruct rest as [|g rest]; [reflexivity|]. cbn.
    pose proof (Forall_inv Hrest) as Hg. cbn beta in Hg.
    rewrite HT. destruct (ticks g <=? T) eqn:E; [lia | reflexivity].
  - destruct fuel as [|fuel]; [cbn in Hfuel; lia|].
    cbn [length] in Hfuel.
    destruct (Forall_inv Hdue) as [Hf Hdef].
    pose proof (Forall_inv_tail Hdue) as Hdue'.
    cbn [Simulator.drain]. rewrite Hq.
    assert (Hlook : (pre ++ (f :: due) ++ rest) !! length pre = Some f).
    { rewrite lookup_app_r by lia. now rewrite Nat.sub_diag. }
    rewrite Hlook.
    destruct (ticks f <=? curTick_ (animState w)) eqn:E; [|lia].
    destruct (Hdef w Hinv) as ((Hc & l & Hl & Hlate) & Hinv1).
    destruct (Simulator.invoke user (call f) w) as [w1 o1].
    cbn [fst] in Hc, Hl, Hinv1. rewrite HT in Hc, Hlate.
    destruct (IH (pre ++ [f]) (rest ++ l) w1 (S n) fuel) as
      (w' & obs & extra & Hdr & Hq' & Hext & HT' & Hinv' & Hobs).
    + exact Hinv1.
    + exact Hc.
    + rewrite Hl, Hq. now rewrite <- !app_assoc.
    + exact Hdue'.
    + apply Forall_app. split; [exact Hrest | exact Hlate].
    + lia.
    + rewrite length_app in Hdr. cbn [length] in Hdr.
      rewrite Nat.add_1_r in Hdr. rewrite Hdr.
      rewrite HT.
      exists w', (Fired (eventId f) T :: o1 ++ obs), (l ++ extra).
      repeat split.
      * do 3 f_equal. cbn [length]. lia.
      * rewrite Hq'. now rewrite <- !app_assoc.
      * apply Forall_app. split; assumption.
      * exact HT'.
      * exact Hinv'.
      * intros g [<- | Hg]; [now left|].
        right. apply in_or_app. right. auto.
Qed.

Lemma getNumTicks_zero (a : Anim) : anim.getNumTicks_ 0 a = 0.
Proof.
  unfold anim.getNumTicks_.
  destruct (msPerFrame_ a) as [[|p|p] d]; reflexivity.
Qed.

(** A positive duration is at least one tick when the period is
    positive. *)
Lemma getNumTicks_positive (duration : Q) (a : Anim) :
  (0 < msPerFrame_ a)%Q -> (0 < duration)%Q ->
  0 < anim.getNumTicks_ duration a.
Proof.
  intros Hms Hd. unfold anim.getNumTicks_.
  set (m := msPerFrame_ a) in *.
  set (x := (duration / m)%Q).
  assert (Hx : (x * m == duration)%Q).
  { unfold x. field. intros H. rewrite H in Hms. now apply Qlt_irrefl in Hms. }
  pose proof (Qle_ceiling x) as Hle.
  destruct (Z_lt_le_dec 0 (Qceiling x)) as [Hok | Hneg]; [exact Hok|].
  exfalso.
  assert (Hc : (inject_Z (Qceiling x) <= inject_Z 0)%Q).
  { rewrite <- Zle_Qle. lia. }
  assert (Hm : (x * m <= inject_Z 0 * m)%Q).
  { apply Qmult_le_compat_r; [|now apply Qlt_le_weak].
    eapply Qle_trans; eassumption. }
  assert (Hz : (inject_Z 0 * m == 0)%Q) by ring.
  lra.
Qed.

(** The head of a frame keeps the period positive and touches nothing of
    the simulator. *)
Lemma frame_head_ready (now : Z) (w : World) :
  step_ready w -> step_ready (frame_head now w).
Proof.
  intros (Hms & Hsp & Hd & Hops). unfold step_ready, frame_head.
  cbn [animState set_anim simulator_ programs].
  split; [|repeat split; assumption].
  assert (Hs : forall a, msPerFrame_ (anim.sort_if_dirty a) = msPerFrame_ a).
  { intros a. unfold anim.sort_if_dirty. now destruct (queueDirty_ a). }
  rewrite Hs. unfold anim.throttleFrameRate_.
  destruct (_ && _); [destruct (20 <? _)|]; cbn [msPerFrame_]; auto.
  apply Q.min_glb_lt; [reflexivity | lra].
Qed.

(** The step callback of a program of jumps and empty operations defers
    wherever the frame period is positive, the speed is one of the five
    settings and no done callback is registered: a step that executes an
    operation queues the next step for a later tick, a step that ends the
    run or finds nothing to run queues nothing; and it invokes no queued
    event. *)
Lemma step_defers (user : nat -> World -> World * list Obs) :
  deferring step_ready user CbStep /\ silent step_ready user CbStep.
Proof.
  assert (H : forall w, step_ready w ->
            defers user CbStep w /\
            step_ready (fst (Simulator.step user w)) /\
            List.filter is_fired (snd (Simulator.step user w)) = []).
  { intros w (Hms & Hsp & Hd & Hops). unfold defers. cbn [Simulator.invoke].
    assert (Hidle : forall w0 : World,
              w0 = w ->
              (curTick_ (animState w0) = curTick_ (animState w) /\
               exists l, queue_ (animState w0) = queue_ (animState w) ++ l /\
                         Forall (fun f => curTick_ (animState w) < ticks f) l)
              /\ step_ready w0 /\ List.filter is_fired (@nil Obs) = []).
    { intros w0 ->. split; [|split; [repeat split; assumption | reflexivity]].
      split; [reflexivity|]. exists []. now rewrite app_nil_r. }
    destruct (tape_ (simulator_ w)) as [tr|] eqn:Ht.
    2:{ unfold Simulator.step. rewrite Ht. now apply Hidle. }
    destruct (program_ (simulator_ w)) as [pr|] eqn:Hp.
    2:{ unfold Simulator.step. rewrite Ht, Hp. now apply Hidle. }
    destruct (stepTimerId_ (simulator_ w) =? -1) eqn:Hid.
    { unfold Simulator.step. rewrite Ht, Hp, Hid. now apply Hidle. }
    destruct (Program.isNextPosEnd (Program.goToNextPos (programs w pr)) ||
              ((0 <? stepLimit_ (simulator_ w)) &&
               (stepLimit_ (simulator_ w) <? stepCount_ (simulator_ w))))
      eqn:Hgo.
    - unfold Simulator.step. rewrite Ht, Hp, Hid.
      cbn [stepLimit_ stepCount_]. rewrite Hgo.
      rewrite stop_without_callback by exact Hd.
      match goal with
      | |- context [Simulator.cancel_step_timer ?w1] =>
          change (Simulator.cancel_step_timer w1) with w1
      end.
      cbn [fst snd animState set_sim set_program simulator_ speeds_
           doneCallback_ List.filter]. unfold step_ready.
      cbn [animState set_sim set_program simulator_ speeds_ doneCallback_
           program_].
      split; [|split; [|reflexivity]].
      + split; [reflexivity|]. exists []. now rewrite app_nil_r.
      + repeat split; try assumption. intros r [=].
    - destruct (step_proceeds user w tr pr Ht Hp Hid Hgo)
        as (Hobs & _ & _ & _ & _ & _ & _ & Hspeed).
      destruct (step_proceeds_timer user w tr pr Ht Hp Hid Hgo)
        as (Ha & _ & Hp' & _ & Hdone & _).
      pose proof (step_proceeds_tracks user w tr pr Ht Hp Hid Hgo) as Htracks.
      assert (Hsp' : exists setting,
                speeds_ (simulator_ (fst (Simulator.step user w)))
                = SPEED_CONFIG setting).
      { rewrite Hspeed.
        destruct (0 <? stepLimit_ (simulator_ w)); [|exact Hsp].
        unfold Simulator.speedUpBoringLoops_. cbn [speeds_].
        destruct (VERY_BORING_REPEAT_COUNT <? _); [now exists LUDICROUS|].
        destruct (SOMEWHAT_BORING_REPEAT_COUNT <? _); [now exists FAST|].
        exact Hsp. }
      rewrite Hobs. split; [|split; [|reflexivity]].
      + rewrite Ha. destruct Hsp' as [setting Hset]. rewrite Hset.
        cbn [anim.delay anim.delayTicks snd curTick_ queue_].
        split; [reflexivity|]. eexists. split; [reflexivity|].
        constructor; [|constructor]. cbn [ticks].
        match goal with
        | |- _ < _ + anim.getNumTicks_ ?d _ =>
            assert (Hpos : 0 < anim.getNumTicks_ d (animState w)); [|lia]
        end.
        apply getNumTicks_positive; [exact Hms|].
        unfold Simulator.stepTimeFor.
        destruct (negb (truthy _)); [|destruct (test_UDB _)];
          destruct setting; reflexivity.
      + unfold step_ready. rewrite Ha, Hdone, Hp'.
        split; [exact Hms|]. split; [exact Hsp'|]. split; [exact Hd|].
        intros r [= <-]. rewrite Htracks. now apply Hops. }
  split; intros w Hw; destruct (H w Hw) as (H1 & H2 & H3); auto.
Qed.

(** C4, as the code has it.  [delay] with a duration of 0 ms appends the
    event to the queue, due at the current tick, and invokes nothing.  When
    it is called between two frames, the event is invoked in the drain of
    the very next frame, at that tick, provided the callbacks due in that
    frame defer in the states the drain takes them through: they leave the
    clock alone and queue events for later ticks only; [Inv] is what holds
    of those states, and it holds when the drain starts.  When it is called
    by the callback of the last event in the queue while that event is
    drained (a callback that calls [run], which queues the first step with
    0 ms, is one), the new event sits at the index the loop reads next and
    is invoked in the same drain, before the tick advances. *)
Theorem zero_delay_event_firing
    (user : nat -> World -> World * list Obs) (Inv : World -> Prop)
    (cb : Callback) (w : World) :
  deferring Inv user cb ->
  let T := curTick_ (animState w) in
  let id := fst (anim.delay cb 0 (animState w)) in
  let w1 := set_anim (snd (anim.delay cb 0 (animState w))) w in
  (id = eventId_ (animState w) /\
   queue_ (animState w1) = queue_ (animState w) ++ [mkFrame T cb id] /\
   curTick_ (animState w1) = T) /\
  (stopped_ (animState w) = false ->
   (forall f, In f (queue_ (animState w)) -> ticks f <= T ->
              deferring Inv user (call f)) ->
   forall now fuel,
     Inv (frame_head now w1) ->
     (length (queue_ (animState w)) + 1 < fuel)%nat ->
     exists w' obs,
       Simulator.loop_step user fuel now w1 = Some (w', obs) /\
       In (Fired id T) obs /\
       curTick_ (animState w') = T + 1) /\
  (forall f i n fuel,
     queue_ (animState w) !! i = Some f ->
     length (queue_ (animState w)) = S i ->
     ticks f <= T ->
     animState (fst (Simulator.invoke user (call f) w))
     = snd (anim.delay cb 0 (animState w)) ->
     Inv (fst (Simulator.invoke user (call f) w)) ->
     (2 < fuel)%nat ->
     exists w' obs,
       Simulator.drain user fuel i n w = Some (w', (n + 2)%nat, obs) /\
       In (Fired (eventId f) T) obs /\
       In (Fired id T) obs /\
       curTick_ (animState w') = T).
Proof.
  intros Hcb. cbv zeta.
  unfold anim.delay. rewrite getNumTicks_zero.
  unfold anim.delayTicks. cbn [fst snd]. rewrite Z.add_0_r.
  set (e := mkFrame (curTick_ (animState w)) cb (eventId_ (animState w))).
  set (T := curTick_ (animState w)).
  split; [repeat split; reflexivity|]. split.
  - intros Hrun Hq now fuel Hinv Hfuel.
    unfold Simulator.loop_step. cbn [animState set_anim stopped_].
    rewrite Hrun. unfold frame_head in Hinv.
    cbn [animState set_anim stopped_] in Hinv. rewrite Hrun in Hinv.
    match goal with |- context [anim.throttleFrameRate_ now ?a] =>
      destruct (throttle_keeps_queue now a) as (Hkq & Hkt & Hkd & _);
      set (a1 := anim.throttleFrameRate_ now a) in *
    end.
    cbn [queue_ curTick_ queueDirty_] in Hkq, Hkt, Hkd.
    unfold anim.sort_if_dirty in Hinv |- *.
    rewrite Hkd, Hkq, Hkt in Hinv |- *.
    set (q := queue_ (animState w) ++ [e]) in *.
    destruct (sorted_queue_split T (FrameSort.sort q)) as
      (due & rest & Hsplit & Hdue & Hrest).
    { apply FrameSort.StronglySorted_sort, frame_leb_trans. }
    assert (Hperm : Permutation q (FrameSort.sort q))
      by apply FrameSort.Permuted_sort.
    assert (Hin : forall f, In f (due ++ rest) ->
                            In f (queue_ (animState w)) \/ f = e).
    { intros f Hf. rewrite <- Hsplit in Hf.
      apply (Permutation_in _ (Permutation_sym Hperm)) in Hf.
      unfold q in Hf. apply in_app_or in Hf as [Hf | [Hf | []]]; auto. }
    assert (He : In e due).
    { assert (H : In e (due ++ rest)).
      { rewrite <- Hsplit. apply (Permutation_in _ Hperm).
        unfold q. apply in_or_app. right. now left. }
      apply in_app_or in H as [H | H]; [exact H|].
      rewrite List.Forall_forall in Hrest. specialize (Hrest e H).
      unfold e in Hrest. cbn in Hrest. lia. }
    match goal with |- context [Simulator.drain user fuel 0 0 ?w0] =>
      destruct (drain_due user Inv T due [] rest w0 0 fuel)
        as (w' & obs & extra & Hdr & Hq' & _ & HT' & _ & Hobs)
    end.
    + exact Hinv.
    + reflexivity.
    + cbn. exact Hsplit.
    + rewrite List.Forall_forall in Hdue. apply List.Forall_forall.
      intros f Hf. split; [now apply Hdue|].
      destruct (Hin f) as [Hold | ->].
      * apply in_or_app. now left.
      * apply Hq; [exact Hold | now apply Hdue].
      * exact Hcb.
    + exact Hrest.
    + assert (Hlen : length (due ++ rest) = length q).
      { rewrite <- Hsplit. symmetry. now apply Permutation_length. }
      unfold q in Hlen. rewrite !length_app in Hlen.
      cbn [length] in Hlen. lia.
    + cbn [length] in Hdr. rewrite Hdr.
      eexists _, obs. split; [reflexivity|]. split.
      * apply (Hobs e He).
      * cbn. rewrite HT'. reflexivity.
  - intros f i n fuel Hlook Hlen Hdue Ha Hinv Hfuel.
    destruct fuel as [|fuel]; [lia|].
    cbn [Simulator.drain]. rewrite Hlook.
    fold T. destruct (ticks f <=? T) eqn:E; [|lia].
    destruct (Simulator.invoke user (call f) w) as [wf o1].
    cbn [fst] in Ha, Hinv.
    destruct (drain_due user Inv T [e] (queue_ (animState w)) [] wf (S n) fuel)
      as (w' & obs & extra & Hdr & _ & _ & HT' & _ & Hobs).
    + exact Hinv.
    + now rewrite Ha.
    + now rewrite Ha.
    + constructor; [|constructor]. split; [cbn; lia | exact Hcb].
    + constructor.
    + cbn [length]. lia.
    + rewrite Hlen in Hdr. rewrite Hdr.
      eexists _, _. split; [|split; [|split]].
      * do 3 f_equal. cbn [length]. lia.
      * now left.
      * right. apply in_or_app. right.
        exact (Hobs e (or_introl eq_refl)).
      * exact HT'.
Qed.

(** [run] queues the first step with a delay of 0 ms.  Called between
    frames, after [turing.init] and a change of program: the first frame
    invokes the step, at tick 0.  Called by closure 5 while the event of
    closure 5, alone in the queue, is drained: the step is invoked in the
    same drain. *)
Lemma zero_delay_event_firing_witness :
  (let v := Simulator.run 0 0 NORMAL None (setup ping_pong "" 40) in
   let w := set_anim (animState (setup ping_pong "" 40)) v in
   exists w' obs,
     Simulator.loop_step no_user 10 1000
       (set_anim (snd (anim.delay CbStep 0 (animState w))) w)
     = Some (w', obs) /\
     In (Fired 1 0) obs /\ curTick_ (animState w') = 1) /\
  (let u :=
     set_anim
       (snd (anim.delay (CbUser 5) 0 (animState (setup ping_pong "" 40))))
       (setup ping_pong "" 40) in
   exists w' obs,
     Simulator.drain demo_user 10 0 0 u = Some (w', 2%nat, obs) /\
     In (Fired 1 0) obs /\ In (Fired 2 0) obs /\
     curTick_ (animState w') = 0).
Proof.
  split.
  - intros v w.
    destruct (zero_delay_event_firing no_user step_ready CbStep w
                (proj1 (step_defers no_user)))
      as (_ & H & _).
    apply (H eq_refl).
    + intros f [].
    + apply frame_head_ready. split; [reflexivity|].
      split; [now exists NORMAL|]. split; [reflexivity|].
      intros pr [= <-]. repeat constructor.
    + cbn. lia.
  - intros u.
    destruct (zero_delay_event_firing demo_user step_ready CbStep u
                (proj1 (step_defers demo_user)))
      as (_ & _ & H).
    apply (H (mkFrame 0 (CbUser 5) 1) 0%nat 0%nat 10%nat);
      try reflexivity; try (cbn; lia).
    split; [reflexivity|]. split; [now exists FAST|]. split; [reflexivity|].
    intros pr [= <-]. repeat constructor.
Defined.

(** C4 as stated fails for an event queued from inside a callback.  The one
    queued event is due; its callback calls [delay] with 0 ms.  The new
    event lands at the index the loop reads next and is invoked in the same
    drain, at tick 0, before the tick advances. *)
Lemma zero_delay_from_callback_fires_in_same_drain :
  let w := set_anim (snd (anim.delay (CbUser 0) 0 (animState boot))) boot in
  map eventId (queue_ (animState w)) = [1] /\
  after demo_user [AFrame 1000] w
    (fun w' obs =>
       obs = [Fired 1 0; Fired 2 0] /\
       curTick_ (animState w') = 1 /\ queue_ (animState w') = []).
Proof.
  vm_compute. repeat split; reflexivity.
Qed.

(** * Further properties of the code *)

(** ** The tape *)

(** X1. What [print] writes is what [getCurSymbol] reads back, except that
    an empty string reads as the blank; the head stays, the other squares
    keep their entries, and the head is never beyond
    [maxWrittenPosition_] afterwards.  Moving the head away and back reads
    the same symbol again, and the neighbour square reads as it did before
    the print. *)
Theorem print_then_read (symbol : string) (t : Tape) :
  let t' := Tape.print symbol t in
  Tape.getCurSymbol t' = (if String.eqb symbol "" then "_" else symbol) /\
  pos_ t' = pos_ t /\ pos_ t' <= maxWrittenPosition_ t' /\
  (forall i, i <> pos_ t -> contents_ t' !! i = contents_ t !! i) /\
  Tape.getCurSymbol (Tape.scanLeft (Tape.scanRight t')) = Tape.getCurSymbol t' /\
  Tape.getCurSymbol (Tape.scanRight (Tape.scanLeft t')) = Tape.getCurSymbol t' /\
  Tape.getCurSymbol (Tape.scanRight t') = Tape.getCurSymbol (Tape.scanRight t) /\
  Tape.getCurSymbol (Tape.scanLeft t') = Tape.getCurSymbol (Tape.scanLeft t).
Proof.
  cbv zeta. unfold Tape.getCurSymbol, Tape.print, Tape.scanLeft,
    Tape.scanRight. cbn [contents_ pos_ maxWrittenPosition_].
  replace (pos_ t + 1 - 1) with (pos_ t) by lia.
  replace (pos_ t - 1 + 1) with (pos_ t) by lia.
  rewrite lookup_insert_eq.
  rewrite !lookup_insert_ne by lia.
  repeat split; try lia.
  - destruct symbol; reflexivity.
  - intros i Hi. now rewrite lookup_insert_ne.
Qed.

Lemma string_get_charAt (str : string) (k : nat) :
  (k < String.length str)%nat ->
  exists c, String.get k str = Some c /\ charAt str k = String c EmptyString.
Proof.
  revert k. induction str as [|c str IH]; intros k Hk; [cbn in Hk; lia|].
  destruct k as [|k].
  - exists c. split; reflexivity.
  - cbn in Hk. destruct (IH k) as (c' & H1 & H2); [lia|].
    exists c'. split; [exact H1|]. unfold charAt in *. cbn. now rewrite H1.
Qed.

(** The squares of the tape after [writeString_]. *)
Lemma writeString_contents (str : string) (start : Z) (t : Tape) (i : Z) :
  let t' := Tape.writeString_ str start t in
  contents_ t' !! i =
    (if (start <=? i) && (i <? start + Z.of_nat (String.length str))
     then Some (charAt str (Z.to_nat (i - start)))
     else contents_ t !! i) /\
  pos_ t' = pos_ t /\ maxWrittenPosition_ t' = maxWrittenPosition_ t.
Proof.
  cbv zeta. revert start t.
  induction str as [|c str IH]; intros start t.
  - cbn. replace (start + Z.of_nat 0) with start by lia.
    destruct (start <=? i) eqn:E1, (i <? start) eqn:E2; cbn; auto; lia.
  - cbn [Tape.writeString_ String.length].
    destruct (IH (start + 1)
                (mkTape (<[start := String c EmptyString]> (contents_ t))
                   (pos_ t) (maxWrittenPosition_ t))) as (H1 & H2 & H3).
    rewrite H1, H2, H3. cbn [contents_ pos_ maxWrittenPosition_].
    split; [|split; reflexivity].
    rewrite Nat2Z.inj_succ.
    destruct (Z.leb_spec (start + 1) i),
      (Z.ltb_spec i (start + 1 + Z.of_nat (String.length str))),
      (Z.leb_spec start i),
      (Z.ltb_spec i (start + Z.succ (Z.of_nat (String.length str))));
      cbn [andb]; try lia;
      first
        [ apply lookup_insert_ne; lia
        | assert (i = start) as -> by lia;
          rewrite lookup_insert_eq; now rewrite Z.sub_diag
        | replace (Z.to_nat (i - start))
            with (S (Z.to_nat (i - (start + 1)))) by lia;
          reflexivity ].
Qed.

(** X2. [writeString_] puts the characters of the string on the squares
    from [start] on, one per square, keeps every other entry, and moves
    neither the head nor [maxWrittenPosition_]. *)
Theorem writeString_lookup (str : string) (start : Z) (t : Tape) (i : Z) :
  let t' := Tape.writeString_ str start t in
  contents_ t' !! i =
    (if (start <=? i) && (i <? start + Z.of_nat (String.length str))
     then Some (charAt str (Z.to_nat (i - start)))
     else contents_ t !! i) /\
  pos_ t' = pos_ t /\ maxWrittenPosition_ t' = maxWrittenPosition_ t.
Proof.
  exact (writeString_contents str start t i).
Qed.

(** X3. [clearOutsideRange_] keeps the entries of the squares in
    [start, end], blanks every other square that has an entry, and adds no
    entries.  After [writeString_] at [start] and [clearOutsideRange_] over
    the squares just written, which is how [resetString] puts the tape back,
    every square of the string holds its character and every other square
    is without a symbol. *)
Theorem clearOutsideRange_lookup (start end_ : Z) (t : Tape) (i : Z) :
  let t' := Tape.clearOutsideRange_ start end_ t in
  contents_ t' !! i =
    (if (i <? start) || (end_ <? i)
     then (fun _ => EmptyString) <$> contents_ t !! i
     else contents_ t !! i) /\
  pos_ t' = pos_ t /\ maxWrittenPosition_ t' = maxWrittenPosition_ t /\
  (forall str,
     let r := Tape.clearOutsideRange_ start
                (start + Z.of_nat (String.length str) - 1)
                (Tape.writeString_ str start t) in
     (start <= i < start + Z.of_nat (String.length str) ->
        contents_ r !! i = Some (charAt str (Z.to_nat (i - start)))) /\
     (~ start <= i < start + Z.of_nat (String.length str) ->
        contents_ r !! i = None \/ contents_ r !! i = Some EmptyString)).
Proof.
  cbv zeta.
  assert (Hl : forall s e t0,
    contents_ (Tape.clearOutsideRange_ s e t0) !! i =
      (if (i <? s) || (e <? i)
       then (fun _ => EmptyString) <$> contents_ t0 !! i
       else contents_ t0 !! i)).
  { intros s e t0. unfold Tape.clearOutsideRange_. cbn [contents_].
    rewrite map_lookup_imap.
    destruct (contents_ t0 !! i) as [x|]; cbn;
      destruct ((i <? s) || (e <? i)); reflexivity. }
  split; [apply Hl|]. split; [reflexivity|]. split; [reflexivity|].
  intros str. rewrite Hl.
  destruct (writeString_contents str start t i) as (Hw & _). cbv zeta in Hw.
  rewrite Hw. split; intros H.
  - replace ((i <? start) || (start + Z.of_nat (String.length str) - 1 <? i))
      with false by lia.
    replace ((start <=? i) && (i <? start + Z.of_nat (String.length str)))
      with true by lia.
    reflexivity.
  - replace ((i <? start) || (start + Z.of_nat (String.length str) - 1 <? i))
      with true by lia.
    replace ((start <=? i) && (i <? start + Z.of_nat (String.length str)))
      with false by lia.
    destruct (contents_ t !! i); cbn; auto.
Qed.

(** X4. [getIndexOfFirstSymbol_] answers the least position whose square
    holds a symbol (an entry other than the empty string, the underscore
    and the space), and -1 when no square holds one. *)
Theorem getIndexOfFirstSymbol_spec (t : Tape) :
  let holds i := exists s, contents_ t !! i = Some s /\ Tape.is_symbol s = true in
  ((forall i, ~ holds i) -> Tape.getIndexOfFirstSymbol_ t = -1) /\
  (forall i, holds i ->
     holds (Tape.getIndexOfFirstSymbol_ t) /\
     Tape.getIndexOfFirstSymbol_ t <= i).
Proof.
  cbv zeta. unfold Tape.getIndexOfFirstSymbol_.
  set (f := fun (i : Z) (s : string) (minValidPos : option Z) =>
              if Tape.is_symbol s then
                Some (match minValidPos with
                      | None => i
                      | Some m => Z.min m i
                      end)
              else minValidPos).
  assert (H : forall m : gmap Z string,
    match map_fold f None m with
    | None => forall i s, m !! i = Some s -> Tape.is_symbol s = false
    | Some r =>
        (exists s, m !! r = Some s /\ Tape.is_symbol s = true) /\
        (forall i s, m !! i = Some s -> Tape.is_symbol s = true -> r <= i)
    end).
  { apply (map_fold_weak_ind
             (fun (acc : option Z) (m : gmap Z string) =>
                match acc with
                | None => forall i s, m !! i = Some s -> Tape.is_symbol s = false
                | Some r =>
                    (exists s, m !! r = Some s /\ Tape.is_symbol s = true) /\
                    (forall i s, m !! i = Some s ->
                                 Tape.is_symbol s = true -> r <= i)
                end)).
    - intros i s Hi. rewrite lookup_empty in Hi. discriminate.
    - intros i x m r Hnone IH. unfold f.
      destruct (Tape.is_symbol x) eqn:Ex.
      + destruct r as [r|].
        * destruct IH as ((s & Hs & Hsym) & Hmin). split.
          -- destruct (Z.min_spec r i) as [[Hlt ->] | [Hle ->]].
             ++ exists s. rewrite lookup_insert_ne by lia. auto.
             ++ exists x. rewrite lookup_insert_eq. auto.
          -- intros j s' Hj Hs'.
             destruct (Z.eq_dec j i) as [-> | Hne]; [lia|].
             rewrite lookup_insert_ne in Hj by congruence.
             specialize (Hmin j s' Hj Hs'). lia.
        * split.
          -- exists x. rewrite lookup_insert_eq. auto.
          -- intros j s' Hj Hs'.
             destruct (Z.eq_dec j i) as [-> | Hne]; [lia|].
             rewrite lookup_insert_ne in Hj by congruence.
             rewrite (IH j s' Hj) in Hs'. discriminate.
      + destruct r as [r|].
        * destruct IH as ((s & Hs & Hsym) & Hmin). split.
          -- exists s. rewrite lookup_insert_ne; [auto|].
             intros ->. rewrite Hnone in Hs. discriminate.
          -- intros j s' Hj Hs'.
             destruct (Z.eq_dec j i) as [-> | Hne].
             ++ rewrite lookup_insert_eq in Hj. injection Hj as <-.
                rewrite Ex in Hs'. discriminate.
             ++ rewrite lookup_insert_ne in Hj by congruence. eauto.
        * intros j s' Hj.
          destruct (Z.eq_dec j i) as [-> | Hne].
          -- rewrite lookup_insert_eq in Hj. now injection Hj as <-.
          -- rewrite lookup_insert_ne in Hj by congruence. eauto. }
  specialize (H (contents_ t)).
  destruct (map_fold f None (contents_ t)) as [r|]; cbn.
  - destruct H as (Hr & Hmin). split.
    + intros Hno. exfalso. apply (Hno r). exact Hr.
    + intros i (s & Hs & Hsym). split; [exact Hr | eauto].
  - split; [reflexivity|].
    intros i (s & Hs & Hsym). rewrite (H i s Hs) in Hsym. discriminate.
Qed.

(** On the tape 0_011 written from square 13 on, with everything else
    blank, the first symbol is at 13; on the fresh tape the answer is -1. *)
Lemma getIndexOfFirstSymbol_spec_witness :
  Tape.getIndexOfFirstSymbol_ (Tape.writeString_ "0_011" 13 Tape.new) <= 16 /\
  Tape.getIndexOfFirstSymbol_ Tape.new = -1.
Proof.
  split.
  - apply (getIndexOfFirstSymbol_spec (Tape.writeString_ "0_011" 13 Tape.new)).
    exists "1". split; reflexivity.
  - apply (getIndexOfFirstSymbol_spec Tape.new).
    intros i (s & Hs & _). cbn in Hs. rewrite lookup_empty in Hs. discriminate.
Defined.

(** X3 on the tape 0_011 reset from square 13: square 15 holds its 0 again
    and square 12, left of the string, holds no symbol. *)
Lemma clearOutsideRange_lookup_witness :
  let r := Tape.clearOutsideRange_ 13 (13 + 5 - 1)
             (Tape.writeString_ "0_011" 13
                (Tape.print "1" (mkTape ∅ 12 0))) in
  contents_ r !! 15 = Some "0" /\
  (contents_ r !! 12 = None \/ contents_ r !! 12 = Some "").
Proof.
  intros r.
  destruct (clearOutsideRange_lookup 13 17 (Tape.print "1" (mkTape ∅ 12 0)) 15)
    as (_ & _ & _ & H15).
  destruct (clearOutsideRange_lookup 13 17 (Tape.print "1" (mkTape ∅ 12 0)) 12)
    as (_ & _ & _ & H12).
  split.
  - apply (H15 "0_011"). cbn. lia.
  - apply (H12 "0_011"). cbn. lia.
Defined.

(** ** Cycling through operations *)

Lemma getNextValue_index_spec (arr : list string) (value : string) (i : nat) :
  Forall (fun x => truthy (Some x) = true) arr ->
  (forall k, arr !! k = Some value ->
     (forall j, (j < k)%nat -> arr !! j <> Some value) ->
     util.getNextValue_index arr value i = (i + k)%nat) /\
  (~ In value arr ->
     util.getNextValue_index arr value i = (i + length arr)%nat).
Proof.
  intros Harr. revert i. induction Harr as [|x arr Hx _ IH]; intros i.
  - split; [intros k Hk; discriminate | intros _; cbn; lia].
  - cbn [util.getNextValue_index]. rewrite Hx. split.
    + intros k Hk Hfirst. destruct k as [|k].
      * cbn in Hk. injection Hk as ->. rewrite String.eqb_refl. lia.
      * destruct (String.eqb_spec x value) as [-> | Hne].
        { exfalso. apply (Hfirst 0%nat); [lia | reflexivity]. }
        destruct (IH (S i)) as [Hfound _].
        rewrite (Hfound k); [lia | exact Hk |].
        intros j Hj. apply (Hfirst (S j)). lia.
    + intros Hnot. destruct (String.eqb_spec x value) as [-> | Hne].
      { exfalso. apply Hnot. now left. }
      destruct (IH (S i)) as [_ Hmiss].
      rewrite Hmiss; [cbn; lia|]. intros Hin. apply Hnot. now right.
Qed.

(** [getNextValue] for a value that is not in the array. *)
Lemma getNextValue_missing (arr : list string) (value : string) :
  Forall (fun x => truthy (Some x) = true) arr ->
  ~ In value arr -> util.getNextValue arr value = None.
Proof.
  intros Harr Hnot.
  destruct (getNextValue_index_spec arr value 0 Harr) as [_ Hmiss].
  unfold util.getNextValue. rewrite (Hmiss Hnot).
  cbn [Nat.add]. now rewrite Nat.eqb_refl.
Qed.

(** X5. In an array of distinct non-empty strings, [getNextValue] answers
    the element after the searched one, and the first element after the
    last one; for a value that is not in the array it answers null. *)
Theorem getNextValue_spec (arr : list string) (value : string) :
  Forall (fun x => truthy (Some x) = true) arr ->
  NoDup arr ->
  (forall k, arr !! k = Some value ->
     util.getNextValue arr value = arr !! ((k + 1) mod length arr)%nat) /\
  (~ In value arr -> util.getNextValue arr value = None).
Proof.
  intros Harr Hnd.
  destruct (getNextValue_index_spec arr value 0 Harr) as [Hfound Hmiss].
  split.
  - intros k Hk. unfold util.getNextValue.
    assert (Hlt : (k < length arr)%nat) by (eapply lookup_lt_Some; eauto).
    rewrite (Hfound k Hk).
    2:{ intros j Hj Hjv.
        assert (j = k) by (eapply NoDup_lookup; eauto). lia. }
    cbn [Nat.add].
    replace (k =? length arr)%nat with false
      by (symmetry; apply Nat.eqb_neq; lia).
    destruct (Z.eqb_spec (Z.of_nat k) (Z.of_nat (length arr) - 1)) as [He|He].
    + replace (k + 1)%nat with (length arr) by lia.
      now rewrite Nat.Div0.mod_same.
    + rewrite Nat.mod_small by lia. now rewrite Nat.add_1_r.
  - intros Hnot. unfold util.getNextValue. rewrite (Hmiss Hnot).
    cbn [Nat.add]. now rewrite Nat.eqb_refl.
Qed.

(** In the loop branches, B3 follows B2 and B2 follows B4; R is no loop
    branch. *)
Lemma getNextValue_spec_witness :
  util.getNextValue Track.LOOP_BRANCH_OPS_ "B4" = Some "B2" /\
  util.getNextValue Track.LOOP_BRANCH_OPS_ "R" = None.
Proof.
  destruct (getNextValue_spec Track.LOOP_BRANCH_OPS_ "B4") as [H1 _].
  { repeat constructor. }
  { compute_done. }
  destruct (getNextValue_spec Track.LOOP_BRANCH_OPS_ "R") as [_ H2].
  { repeat constructor. }
  { compute_done. }
  split.
  - apply (H1 2%nat). reflexivity.
  - apply H2. cbn. intuition discriminate.
Defined.

(** A click on a clickable operation of an interactive track: the
    operation at [i] becomes the marker followed by [cycled] of the rest. *)
Lemma cycleOp_editable (i : nat) (l : list string) (op : string) :
  l !! i = Some (String "*" op) ->
  Track.cycleOp i (mkTrack l true)
  = mkTrack (<[i := String "*" (Track.cycled op)]> l) true.
Proof.
  intros H. unfold Track.cycleOp, Track.getOp, Track.setOp.
  cbn [interactive_ ops negb]. rewrite H.
  assert (Hlt : (i < length l)%nat) by (eapply lookup_lt_Some; eauto).
  rewrite (proj2 (Nat.ltb_lt _ _) Hlt). reflexivity.
Qed.

Lemma cycleOp_iter (i : nat) (l : list string) (op : string) :
  l !! i = Some (String "*" op) ->
  forall n,
    Nat.iter (S n) (Track.cycleOp i) (mkTrack l true)
    = mkTrack (<[i := String "*" (Nat.iter (S n) Track.cycled op)]> l) true.
Proof.
  intros Hl. induction n as [|n IH].
  - cbn. now apply cycleOp_editable.
  - change (Nat.iter (S (S n)) (Track.cycleOp i) (mkTrack l true))
      with (Track.cycleOp i (Nat.iter (S n) (Track.cycleOp i) (mkTrack l true))).
    rewrite IH.
    assert (Hlt : (i < length l)%nat) by (eapply lookup_lt_Some; eauto).
    erewrite cycleOp_editable by (now apply list_lookup_insert_eq).
    now rewrite list_insert_insert_eq.
Qed.

(** Within each group, [cycled] is the cyclic successor. *)
Lemma cycled_in_group (g : list string) (op : string) :
  In g Track.groups -> In op g ->
  util.getNextValue g op = Some (Track.cycled op) /\
  In (Track.cycled op) g /\ Track.cycled op <> op /\
  Nat.iter (length g) Track.cycled op = op.
Proof.
  intros Hg Hop.
  assert (H : forallb (fun g =>
            forallb (fun op =>
              match util.getNextValue g op with
              | Some op' =>
                  String.eqb op' (Track.cycled op) &&
                  existsb (String.eqb (Track.cycled op)) g &&
                  negb (String.eqb (Track.cycled op) op) &&
                  String.eqb (Nat.iter (length g) Track.cycled op) op
              | None => false
              end) g) Track.groups = true) by (vm_compute; reflexivity).
  rewrite forallb_forall in H. specialize (H g Hg).
  rewrite forallb_forall in H. specialize (H op Hop).
  destruct (util.getNextValue g op) as [op'|]; [|discriminate].
  repeat (apply andb_prop in H as [H ?]).
  apply String.eqb_eq in H as ->.
  repeat split.
  - apply existsb_exists in H2 as (x & Hx & Hex).
    apply String.eqb_eq in Hex as <-. exact Hx.
  - intros He. rewrite He in H1. rewrite String.eqb_refl in H1. discriminate.
  - now apply String.eqb_eq.
Qed.

(** X6. On an interactive track, a click on a clickable operation of one of
    the five groups (up-if, down-if, loop branch, print, move) replaces it
    by the next operation of its own group, still clickable, and changes
    nothing else; as many clicks as the group has members bring the track
    back to what it was. *)
Theorem cycleOp_in_group (i : nat) (t : Track) (g : list string)
    (op : string) :
  interactive_ t = true ->
  In g Track.groups ->
  In op g ->
  ops t !! i = Some (String "*" op) ->
  exists op',
    util.getNextValue g op = Some op' /\ In op' g /\ op' <> op /\
    Track.cycleOp i t = mkTrack (<[i := String "*" op']> (ops t)) true /\
    Nat.iter (length g) (Track.cycleOp i) t = t.
Proof.
  destruct t as [l b]. cbn [interactive_ ops]. intros -> Hg Hop Hl.
  destruct (cycled_in_group g op Hg Hop) as (Hn & Hin & Hne & Hit).
  exists (Track.cycled op).
  split; [exact Hn|]. split; [exact Hin|]. split; [exact Hne|].
  split; [now apply cycleOp_editable|].
  destruct (length g) as [|n] eqn:En.
  - destruct g; [contradiction | discriminate].
  - rewrite (cycleOp_iter i l op Hl n), Hit.
    f_equal. now apply list_insert_id.
Qed.

(** The down-if D0 at index 2 of a track: one click makes it D1, three
    clicks make it D0 again. *)
Lemma cycleOp_in_group_witness :
  let t := mkTrack ["L"; "L"; "*D0"; "R"] true in
  Track.cycleOp 2 t = mkTrack ["L"; "L"; "*D1"; "R"] true /\
  Track.cycleOp 2 (Track.cycleOp 2 (Track.cycleOp 2 t)) = t.
Proof.
  intros t.
  destruct (cycleOp_in_group 2 t Track.COND_BRANCH_DOWN_OPS_ "D0")
    as (op' & Hn & _ & _ & H1 & H2); try reflexivity.
  - cbn. tauto.
  - cbn. tauto.
  - split; [|exact H2].
    rewrite H1. injection Hn as <-. reflexivity.
Defined.

(** X7. [cycleOp] leaves the track as it is when the track is not
    interactive, when there is no operation at the index, when the
    operation there is not marked clickable, and when it is clickable but
    belongs to none of the five groups (the empty operation, or a bonus
    operation such as B8). *)
Theorem cycleOp_unchanged (i : nat) (t : Track) :
  (interactive_ t = false -> Track.cycleOp i t = t) /\
  (ops t !! i = None -> Track.cycleOp i t = t) /\
  (forall op, ops t !! i = Some op -> charAt op 0 <> "*" ->
              Track.cycleOp i t = t) /\
  (forall op, ops t !! i = Some (String "*" op) ->
              (forall g, In g Track.groups -> ~ In op g) ->
              Track.cycleOp i t = t).
Proof.
  destruct t as [l b]. cbn [interactive_ ops].
  split; [intros ->; reflexivity|].
  split; [intros H; unfold Track.cycleOp, Track.getOp; cbn [ops interactive_];
          rewrite H; now destruct b|].
  split.
  - intros op Hl Hc. unfold Track.cycleOp, Track.getOp. cbn [ops interactive_].
    rewrite Hl. destruct b; [|reflexivity]. cbn [negb].
    destruct (String.eqb_spec (charAt op 0) "*") as [He | Hne];
      [contradiction|].
    cbn. now rewrite orb_true_r.
  - intros op Hl Hg. destruct b; [|reflexivity].
    rewrite (cycleOp_editable i l op Hl). f_equal.
    assert (Hc : Track.cycled op = op).
    { assert (Hmiss : forall g k, In g Track.groups ->
                Track.or_else (util.getNextValue g op) k = k).
      { intros g k Hin.
        assert (Hn : util.getNextValue g op = None).
        { unfold Track.groups in Hin. cbn in Hin.
          repeat (destruct Hin as [<- | Hin]; [|]); try contradiction;
            (apply getNextValue_missing;
             [repeat constructor | apply Hg; cbn; tauto]). }
        now rewrite Hn. }
      unfold Track.cycled.
      rewrite !Hmiss by (cbn; tauto). reflexivity. }
    rewrite Hc. now apply list_insert_id.
Qed.

(** A track that is not interactive ignores the click; the clickable empty
    operation stays as it is. *)
Lemma cycleOp_unchanged_witness :
  Track.cycleOp 0 (mkTrack ["*D0"] false) = mkTrack ["*D0"] false /\
  Track.cycleOp 0 (mkTrack ["*"; "L"] true) = mkTrack ["*"; "L"] true.
Proof.
  destruct (cycleOp_unchanged 0 (mkTrack ["*D0"] false)) as (H1 & _).
  destruct (cycleOp_unchanged 0 (mkTrack ["*"; "L"] true)) as (_ & _ & _ & H4).
  split.
  - apply H1. reflexivity.
  - apply (H4 ""); [reflexivity|].
    intros g Hg. unfold Track.groups in Hg. cbn in Hg.
    repeat (destruct Hg as [<- | Hg]; [|]); try contradiction;
      cbn; intuition discriminate.
Defined.

(** ** Event ids and cancelling *)

Lemma remove_event_filter (id : Z) (q : list Frame) :
  NoDup (map eventId q) ->
  anim.remove_event id q = List.filter (fun f => negb (eventId f =? id)) q.
Proof.
  induction q as [|f q IH]; intros Hnd; [reflexivity|].
  cbn [map] in Hnd. apply NoDup_cons in Hnd as [Hf Hnd].
  cbn. destruct (Z.eqb_spec (eventId f) id) as [He | Hne]; cbn.
  - symmetry. rewrite List.forallb_filter_id; [reflexivity|].
    apply forallb_forall. intros g Hg.
    destruct (Z.eqb_spec (eventId g) id) as [Hg' | _]; [|reflexivity].
    exfalso. apply Hf. rewrite He, <- Hg'.
    apply list_elem_of_In, in_map, Hg.
  - now rewrite IH.
Qed.

(** Scheduling keeps the ids fresh. *)
Lemma delayTicks_fresh (cb : Callback) (t : Z) (a : Anim) :
  ids_fresh a -> ids_fresh (snd (anim.delayTicks cb t a)).
Proof.
  intros (Hpos & Hall & Hnd). unfold ids_fresh.
  cbn [snd anim.delayTicks eventId_ queue_].
  split; [lia|]. split.
  - apply Forall_app. split.
    + eapply Forall_impl; [exact Hall|]. cbn. intros f Hf. lia.
    + repeat constructor; cbn; lia.
  - rewrite map_app. cbn [map eventId].
    apply NoDup_app. split; [exact Hnd|]. split.
    + intros x Hx Hx'. apply list_elem_of_In in Hx.
      apply in_map_iff in Hx as (f & <- & Hf).
      apply list_elem_of_In in Hf.
      rewrite Forall_forall in Hall. specialize (Hall f Hf).
      apply list_elem_of_singleton in Hx'. lia.
    + apply NoDup_singleton.
Qed.

(** X8. The scheduler keeps its event ids fresh: if the queued ids are
    positive, pairwise different and below the next id, this still holds
    after scheduling (which hands out exactly the next id), cancelling,
    sorting, finishing a tick and throttling; [reset] establishes it from
    any state. *)
Theorem ids_fresh_kept (a : Anim) :
  ids_fresh (anim.reset a) /\
  (ids_fresh a ->
   forall cb t id n now,
     fst (anim.delayTicks cb t a) = eventId_ a /\
     ids_fresh (snd (anim.delayTicks cb t a)) /\
     ids_fresh (anim.cancel id a) /\
     ids_fresh (anim.sort_if_dirty a) /\
     ids_fresh (anim.finish_tick n a) /\
     ids_fresh (anim.throttleFrameRate_ now a)).
Proof.
  split.
  { unfold ids_fresh. cbn -[Z.lt].
    repeat split; constructor. }
  intros (Hpos & Hall & Hnd) cb t id n now.
  split; [reflexivity|]. unfold ids_fresh.
  split; [|split; [|split; [|split]]].
  - exact (delayTicks_fresh cb t a (conj Hpos (conj Hall Hnd))).
  - cbn [anim.cancel eventId_ queue_].
    rewrite (remove_event_filter id _ Hnd).
    split; [exact Hpos|]. split.
    + apply List.Forall_forall. intros f Hf.
      apply filter_In in Hf as [Hf _].
      rewrite List.Forall_forall in Hall. now apply Hall.
    + clear Hall. induction (queue_ a) as [|f q IH]; [constructor|].
      cbn [map] in Hnd. apply NoDup_cons in Hnd as [Hf Hnd].
      cbn. destruct (negb (eventId f =? id)); [|now apply IH].
      cbn [map]. apply NoDup_cons. split; [|now apply IH].
      intros Hin. apply Hf. apply list_elem_of_In in Hin.
      apply in_map_iff in Hin as (g & Hg & Hin).
      apply filter_In in Hin as [Hin _].
      apply list_elem_of_In. rewrite <- Hg. now apply in_map.
  - unfold anim.sort_if_dirty. destruct (queueDirty_ a); [|auto].
    cbn [eventId_ queue_].
    pose proof (FrameSort.Permuted_sort (queue_ a)) as Hperm.
    split; [exact Hpos|]. split.
    + eapply Permutation_Forall; eauto.
    + assert (Hm : Permutation (map eventId (queue_ a))
                     (map eventId (FrameSort.sort (queue_ a))))
        by now apply Permutation_map.
      now rewrite <- Hm.
  - cbn [anim.finish_tick eventId_ queue_].
    split; [exact Hpos|]. split.
    + now apply Forall_drop.
    + rewrite <- (take_drop n (queue_ a)) in Hnd.
      rewrite map_app in Hnd. apply NoDup_app in Hnd as (_ & _ & H). exact H.
  - destruct (throttle_keeps_queue now a) as (Hq & _).
    assert (He : eventId_ (anim.throttleFrameRate_ now a) = eventId_ a).
    { unfold anim.throttleFrameRate_.
      destruct (_ && _); [destruct (20 <? _)|]; reflexivity. }
    cbv zeta in Hq. rewrite Hq, He. auto.
Qed.

(** After [turing.init], an event scheduled with three ticks of delay gets
    id 1, and the ids stay fresh. *)
Lemma ids_fresh_kept_witness :
  fst (anim.delayTicks CbStep 3 (animState boot)) = 1 /\
  ids_fresh (snd (anim.delayTicks CbStep 3 (animState boot))).
Proof.
  destruct (ids_fresh_kept (animState boot)) as [_ H].
  destruct (H ltac:(unfold ids_fresh; cbn -[Z.lt];
                    repeat split; constructor)
              CbStep 3 0 0%nat 0) as (H1 & H2 & _).
  split; assumption.
Defined.

(** X9. With fresh ids, [cancel] removes exactly the event with the given
    id and keeps the others in their order; no queued event has that id
    afterwards; the clock and the next id stay.  Scheduling an event and
    cancelling the id handed out gives back the queue as it was. *)
Theorem cancel_removes_exactly (id : Z) (a : Anim) :
  ids_fresh a ->
  queue_ (anim.cancel id a)
  = List.filter (fun f => negb (eventId f =? id)) (queue_ a) /\
  (forall f, In f (queue_ (anim.cancel id a)) -> eventId f <> id) /\
  curTick_ (anim.cancel id a) = curTick_ a /\
  eventId_ (anim.cancel id a) = eventId_ a /\
  (forall cb t,
     queue_ (anim.cancel (fst (anim.delayTicks cb t a))
               (snd (anim.delayTicks cb t a)))
     = queue_ a).
Proof.
  intros Hfresh.
  assert (Hq : forall id' a', ids_fresh a' ->
            queue_ (anim.cancel id' a')
            = List.filter (fun f => negb (eventId f =? id')) (queue_ a')).
  { intros id' a' (_ & _ & Hnd). cbn [anim.cancel queue_].
    now apply remove_event_filter. }
  split; [now apply Hq|]. split; [|split; [reflexivity|split; [reflexivity|]]].
  - rewrite (Hq id a Hfresh). intros f Hf.
    apply filter_In in Hf as [_ Hf]. lia.
  - intros cb t.
    rewrite (Hq _ _ (delayTicks_fresh cb t a Hfresh)).
    cbn [fst snd anim.delayTicks queue_]. rewrite List.filter_app.
    cbn [List.filter eventId]. rewrite Z.eqb_refl. cbn [negb].
    rewrite app_nil_r. apply List.forallb_filter_id.
    apply forallb_forall. intros f Hf.
    destruct Hfresh as (_ & Hall & _).
    rewrite List.Forall_forall in Hall. specialize (Hall f Hf). lia.
Qed.

(** Cancelling the step event that [run] scheduled after [turing.init]
    empties the queue again. *)
Lemma cancel_removes_exactly_witness :
  queue_ (anim.cancel (fst (anim.delayTicks CbStep 0 (animState boot)))
            (snd (anim.delayTicks CbStep 0 (animState boot))))
  = queue_ (animState boot).
Proof.
  destruct (cancel_removes_exactly 0 (animState boot)) as (_ & _ & _ & _ & H).
  - unfold ids_fresh. cbn -[Z.lt]. repeat split; constructor.
  - apply H.
Defined.

(** ** Durations in ticks *)



(** ** The overrun counter *)

(** X11. [throttleFrameRate_] keeps the overrun counter between 0 and 20
    and always records the start of the tick.  During the first 31 ticks
    it changes neither the period nor the counter.  [stop] keeps the queue,
    the clock and the ids, and the first frame after [stop] and [start]
    measures nothing: however long the loop stood still, the period stays
    and the counter is 0. *)
Theorem throttle_counter (now : Z) (a : Anim) :
  let a' := anim.throttleFrameRate_ now a in
  (0 <= tooSlowTicks_ a <= 20 -> 0 <= tooSlowTicks_ a' <= 20) /\
  lastTickStartTime_ a' = now /\
  (curTick_ a <= 30 ->
   msPerFrame_ a' = msPerFrame_ a /\ tooSlowTicks_ a' = tooSlowTicks_ a) /\
  (let r := anim.throttleFrameRate_ now (anim.start (anim.stop a)) in
   msPerFrame_ r = msPerFrame_ a /\ tooSlowTicks_ r = 0 /\
   queue_ r = queue_ a /\ curTick_ r = curTick_ a /\
   eventId_ r = eventId_ a /\ stopped_ r = false).
Proof.
  cbv zeta. split; [|split; [|split]].
  - intros Hc. unfold anim.throttleFrameRate_.
    destruct ((30 <? curTick_ a) && negb (lastTickStartTime_ a =? 0));
      [|exact Hc].
    set (slow := if Qle_bool _ _ then _ else _).
    assert (Hslow : 0 <= slow <= 21).
    { unfold slow. destruct (Qle_bool _ _); [lia|].
      rewrite Z.shiftr_div_pow2 by lia. change (2 ^ 1) with 2.
      split; [apply Z.div_pos; lia|].
      assert (tooSlowTicks_ a / 2 <= tooSlowTicks_ a)
        by (apply Z.div_le_upper_bound; lia).
      lia. }
    destruct (20 <? slow) eqn:E; cbn [tooSlowTicks_]; lia.
  - unfold anim.throttleFrameRate_.
    destruct (_ && _); [destruct (20 <? _)|]; reflexivity.
  - intros Hw. unfold anim.throttleFrameRate_.
    replace (30 <? curTick_ a) with false by lia. cbn. auto.
  - unfold anim.throttleFrameRate_, anim.start, anim.stop,
      anim.resetFpsController_.
    cbn [curTick_ lastTickStartTime_]. rewrite Z.eqb_refl. cbn [negb].
    rewrite andb_false_r. cbn. auto 10.
Qed.

(** The counter stays in range at a frame that comes a whole minute after
    forty frames of one second each. *)
Lemma throttle_counter_witness :
  after no_user (frames 1000 40) boot
    (fun w _ =>
       0 <= tooSlowTicks_ (anim.throttleFrameRate_ 61640 (animState w)) <= 20).
Proof.
  unfold after.
  destruct (acts no_user 10 (frames 1000 40) boot) as [[w obs]|] eqn:E;
    [|vm_compute in E; discriminate].
  apply (throttle_counter 61640 (animState w)).
  assert (Hw : option_map (fun r => tooSlowTicks_ (animState (fst r)))
                 (acts no_user 10 (frames 1000 40) boot) = Some 0)
    by (vm_compute; reflexivity).
  rewrite E in Hw. cbn [option_map fst] in Hw. injection Hw as Hw. lia.
Defined.

(** ** The order of invocation within a frame *)

(** The drain over due events whose callbacks are deferring and silent,
    started in a state of [Inv]: the invocations it observes are those of
    the due events, one each, in queue order. *)
Lemma drain_due_fired (user : nat -> World -> World * list Obs)
    (Inv : World -> Prop) (T : Z) :
  forall (due pre rest : list Frame) (w : World) (n fuel : nat),
    Inv w ->
    curTick_ (animState w) = T ->
    queue_ (animState w) = pre ++ due ++ rest ->
    Forall (fun f => ticks f <= T /\ deferring Inv user (call f)
                     /\ silent Inv user (call f)) due ->
    Forall (fun f => T < ticks f) rest ->
    (length due < fuel)%nat ->
    exists w' obs extra,
      Simulator.drain user fuel (length pre) n w
        = Some (w', (n + length due)%nat, obs) /\
      queue_ (animState w') = pre ++ due ++ rest ++ extra /\
      Forall (fun f => T < ticks f) extra /\
      curTick_ (animState w') = T /\
      List.filter is_fired obs = map (fun f => Fired (eventId f) T) due.
Proof.
  induction due as [|f due IH];
    intros pre rest w n fuel Hinv HT Hq Hdue Hrest Hfuel.
  - destruct fuel as [|fuel]; [cbn in Hfuel; lia|].
    exists w, [], []. cbn [Simulator.drain app length].
    rewrite Hq. cbn [app]. rewrite Nat.add_0_r, app_nil_r.
    assert (Hlook : (pre ++ rest) !! length pre = rest !! 0%nat).
    { rewrite lookup_app_r by lia. now rewrite Nat.sub_diag. }
    rewrite Hlook. split; [|repeat split; auto].
    destruct rest as [|g rest]; [reflexivity|]. cbn.
    pose proof (Forall_inv Hrest) as Hg. cbn beta in Hg.
    rewrite HT. destruct (ticks g <=? T) eqn:E; [lia | reflexivity].
  - destruct fuel as [|fuel]; [cbn in Hfuel; lia|].
    cbn [length] in Hfuel.
    destruct (Forall_inv Hdue) as (Hf & Hdef & Hsil).
    pose proof (Forall_inv_tail Hdue) as Hdue'.
    cbn [Simulator.drain]. rewrite Hq.
    assert (Hlook : (pre ++ (f :: due) ++ rest) !! length pre = Some f).
    { rewrite lookup_app_r by lia. now rewrite Nat.sub_diag. }
    rewrite Hlook.
    destruct (ticks f <=? curTick_ (animState w)) eqn:E; [|lia].
    destruct (Hdef w Hinv) as ((Hc & l & Hl & Hlate) & Hinv1).
    specialize (Hsil w Hinv).
    destruct (Simulator.invoke user (call f) w) as [w1 o1].
    cbn [fst] in Hc, Hl, Hinv1. cbn [snd] in Hsil. rewrite HT in Hc, Hlate.
    destruct (IH (pre ++ [f]) (rest ++ l) w1 (S n) fuel) as
      (w' & obs & extra & Hdr & Hq' & Hext & HT' & Hobs).
    + exact Hinv1.
    + exact Hc.
    + rewrite Hl, Hq. now rewrite <- !app_assoc.
    + exact Hdue'.
    + apply Forall_app. split; [exact Hrest | exact Hlate].
    + lia.
    + rewrite length_app in Hdr. cbn [length] in Hdr.
      rewrite Nat.add_1_r in Hdr. rewrite Hdr.
      rewrite HT.
      exists w', (Fired (eventId f) T :: o1 ++ obs), (l ++ extra).
      repeat split.
      * do 3 f_equal. cbn [length]. lia.
      * rewrite Hq'. now rewrite <- !app_assoc.
      * apply Forall_app. split; assumption.
      * exact HT'.
      * cbn [List.filter is_fired map]. rewrite List.filter_app, Hsil, Hobs.
        reflexivity.
Qed.

(** X12. One frame of a running loop whose due callbacks, in the states
    the drain takes them through, defer (they leave the clock alone and
    queue events for later ticks only) and invoke no queued event
    themselves; [Inv] is what holds of those states, and it holds when the
    drain starts.  The queue, put in the order of (tick, id), splits into
    the due events and the others; the frame invokes the due events, each
    once, in that order, so events of one tick fire in the order of their
    ids; every event that is not due is still queued afterwards, followed
    by what the callbacks queued for later ticks; and the clock advances by
    one.  The order is that of the sorted queue when the queue is marked
    dirty, and the queue's own when it is not and is in order already. *)
Theorem frame_fires_due_in_order
    (user : nat -> World -> World * list Obs) (Inv : World -> Prop)
    (now : Z) (w : World) (fuel : nat) :
  stopped_ (animState w) = false ->
  queueDirty_ (animState w) = true \/
  Sorted.StronglySorted (fun x y => is_true (FrameOrder.leb x y))
    (queue_ (animState w)) ->
  let T := curTick_ (animState w) in
  Inv (frame_head now w) ->
  (forall f, In f (queue_ (animState w)) -> ticks f <= T ->
             deferring Inv user (call f) /\ silent Inv user (call f)) ->
  (length (queue_ (animState w)) < fuel)%nat ->
  exists w' obs due rest extra,
    Simulator.loop_step user fuel now w = Some (w', obs) /\
    List.filter is_fired obs = map (fun f => Fired (eventId f) T) due /\
    Permutation (queue_ (animState w)) (due ++ rest) /\
    Sorted.StronglySorted (fun x y => is_true (FrameOrder.leb x y))
      (due ++ rest) /\
    Forall (fun f => ticks f <= T) due /\
    Forall (fun f => T < ticks f) rest /\
    queue_ (animState w') = rest ++ extra /\
    Forall (fun f => T < ticks f) extra /\
    curTick_ (animState w') = T + 1.
Proof.
  intros Hrun Hord T Hinv Hcb Hfuel.
  unfold Simulator.loop_step. rewrite Hrun. unfold frame_head in Hinv.
  destruct (throttle_keeps_queue now (animState w)) as (Hkq & Hkt & Hkd & _).
  set (a1 := anim.throttleFrameRate_ now (animState w)) in *.
  set (a2 := anim.sort_if_dirty a1) in *.
  assert (Hq2 : Permutation (queue_ (animState w)) (queue_ a2) /\
                Sorted.StronglySorted
                  (fun x y => is_true (FrameOrder.leb x y)) (queue_ a2) /\
                curTick_ a2 = T).
  { unfold a2, anim.sort_if_dirty. rewrite Hkd, Hkq.
    destruct (queueDirty_ (animState w)) eqn:Ed; cbn [queue_ curTick_].
    - split; [apply FrameSort.Permuted_sort|]. split; [|exact Hkt].
      apply FrameSort.StronglySorted_sort, frame_leb_trans.
    - rewrite Hkq. destruct Hord as [Hd | Hs]; [discriminate|].
      split; [reflexivity|]. split; [exact Hs | exact Hkt]. }
  destruct Hq2 as (Hperm & Hsorted & HT2).
  destruct (sorted_queue_split T (queue_ a2) Hsorted) as
    (due & rest & Hsplit & Hdue & Hrest).
  destruct (drain_due_fired user Inv T due [] rest (set_anim a2 w) 0 fuel)
    as (w' & obs & extra & Hdr & Hq' & Hext & HT' & Hobs).
  - exact Hinv.
  - exact HT2.
  - cbn. exact Hsplit.
  - rewrite List.Forall_forall in Hdue. apply List.Forall_forall.
    intros f Hf. split; [now apply Hdue|].
    apply Hcb; [|now apply Hdue].
    apply (Permutation_in _ (Permutation_sym Hperm)).
    rewrite Hsplit. apply in_or_app. now left.
  - exact Hrest.
  - assert (Hlen : length (queue_ (animState w)) = length (due ++ rest)).
    { rewrite <- Hsplit. now apply Permutation_length. }
    rewrite length_app in Hlen. lia.
  - cbn [length] in Hdr. rewrite Hdr.
    eexists _, obs, due, rest, extra.
    split; [reflexivity|]. split; [exact Hobs|].
    split; [now rewrite <- Hsplit|]. split; [now rewrite <- Hsplit|].
    split; [exact Hdue|]. split; [exact Hrest|].
    cbn [animState set_anim anim.finish_tick queue_ curTick_].
    rewrite Hq', HT'. cbn [app Nat.add]. rewrite drop_app_length.
    repeat split; auto.
Qed.

(** After [turing.init] and a change of program, an event of closure 7 is
    queued for tick 3, [run] queues the first step, and an event of closure
    9 is queued for tick 0: the first frame after that, with the step and
    closure 9 due. *)
Lemma frame_fires_due_in_order_witness :
  let a1 :=
    snd (anim.delayTicks (CbUser 7) 3 (animState (setup ping_pong "" 40))) in
  let v :=
    Simulator.run 0 0 NORMAL None (set_anim a1 (setup ping_pong "" 40)) in
  let w := set_anim (snd (anim.delayTicks (CbUser 9) 0 (animState v))) v in
  exists w' obs due rest extra,
    Simulator.loop_step no_user 10 1000 w = Some (w', obs) /\
    List.filter is_fired obs = map (fun f => Fired (eventId f) 0) due /\
    Permutation (queue_ (animState w)) (due ++ rest) /\
    Sorted.StronglySorted (fun x y => is_true (FrameOrder.leb x y))
      (due ++ rest) /\
    Forall (fun f => ticks f <= 0) due /\
    Forall (fun f => 0 < ticks f) rest /\
    queue_ (animState w') = rest ++ extra /\
    Forall (fun f => 0 < ticks f) extra /\
    curTick_ (animState w') = 0 + 1.
Proof.
  intros a1 v w.
  apply (frame_fires_due_in_order no_user step_ready 1000 w 10).
  - reflexivity.
  - left. reflexivity.
  - apply frame_head_ready. split; [reflexivity|].
    split; [now exists NORMAL|]. split; [reflexivity|].
    intros pr [= <-]. repeat constructor.
  - assert (Hquiet : forall n, deferring step_ready no_user (CbUser n) /\
                                silent step_ready no_user (CbUser n)).
    { intros n. split; intros w0 Hw0; cbn; [|reflexivity].
      split; [|exact Hw0]. split; [reflexivity|]. exists [].
      rewrite app_nil_r. split; [reflexivity | constructor]. }
    intros f [<- | [<- | [<- | []]]] _;
      [apply Hquiet | apply step_defers | apply Hquiet].
  - cbn. lia.
Defined.

(** ** Animations *)

(** The events that [schedule_frames] appends: one per round, due at
    consecutive ticks, with consecutive ids. *)
Lemma schedule_frames_spec (frame : Z -> Callback) :
  forall (n : nat) (tick : Z) (a : Anim),
    let a' := anim.schedule_frames frame n tick a in
    queue_ a'
    = queue_ a
      ++ map (fun k => mkFrame (curTick_ a + (tick + Z.of_nat k))
                         (frame (tick + Z.of_nat k))
                         (eventId_ a + Z.of_nat k)) (seq 0 n) /\
    eventId_ a' = eventId_ a + Z.of_nat n /\
    curTick_ a' = curTick_ a /\
    msPerFrame_ a' = msPerFrame_ a /\
    stopped_ a' = stopped_ a /\
    (n <> 0%nat -> queueDirty_ a' = true).
Proof.
  induction n as [|n IH]; intros tick a; cbv zeta.
  - cbn. rewrite app_nil_r, Z.add_0_r. repeat split; congruence.
  - cbn [anim.schedule_frames].
    destruct (IH (tick + 1) (snd (anim.delayTicks (frame tick) tick a)))
      as (Hq & Hid & Ht & Hms & Hst & Hd).
    rewrite Hq, Hid, Ht, Hms, Hst.
    cbn [anim.delayTicks snd queue_ eventId_ curTick_ msPerFrame_ stopped_].
    repeat split; try lia.
    + rewrite <- app_assoc. f_equal. cbn [app seq map].
      change (Z.of_nat 0) with 0. rewrite !Z.add_0_r. f_equal.
      rewrite <- seq_shift, map_map.
      apply map_ext. intros k. rewrite Nat2Z.inj_succ.
      f_equal; [|f_equal|]; lia.
    + intros _. destruct n as [|n]; [reflexivity|]. now apply Hd.
Qed.

(** X13. An animation over a duration of [n >= 0] ticks appends [n + 1]
    frame events, frame [k] due [k] ticks from now and carrying the closure
    for tick [k], with consecutive ids from the next free one, and then the
    done callback, due in the same tick as the last frame with the id after
    it.  In the order of the queue the done callback comes strictly after
    every frame of its animation, so it is invoked last.  The clock, the
    period and the events already queued stay. *)
Theorem animateThroughBackgrounds_layout (frame : Z -> Callback)
    (duration : Q) (done : Callback) (a : Anim) :
  let n := anim.getNumTicks_ duration a in
  0 <= n ->
  let a' := anim.animateThroughBackgrounds frame duration (Some done) a in
  let shots :=
    map (fun k => mkFrame (curTick_ a + Z.of_nat k) (frame (Z.of_nat k))
                    (eventId_ a + Z.of_nat k))
      (seq 0 (Z.to_nat (n + 1))) in
  let last := mkFrame (curTick_ a + n) done (eventId_ a + n + 1) in
  queue_ a' = queue_ a ++ shots ++ [last] /\
  anim.animateFromSprites frame duration (Some done) a = a' /\
  queue_ (anim.animateThroughBackgrounds frame duration None a)
  = queue_ a ++ shots /\
  eventId_ a' = eventId_ a + n + 2 /\
  curTick_ a' = curTick_ a /\ msPerFrame_ a' = msPerFrame_ a /\
  queueDirty_ a' = true /\
  (forall f, In f shots ->
     FrameOrder.leb f last = true /\ FrameOrder.leb last f = false).
Proof.
  intros n Hn. cbv zeta.
  unfold anim.animateFromSprites, anim.animateThroughBackgrounds. fold n.
  destruct (schedule_frames_spec frame (Z.to_nat (n + 1)) 0 a)
    as (Hq & Hid & Ht & Hms & Hst & Hd).
  cbn [anim.delayTicks snd queue_ eventId_ curTick_ msPerFrame_ queueDirty_].
  rewrite Hq, Hid, Ht, Hms.
  rewrite Z2Nat.id by lia.
  assert (Hshots :
    map (fun k => mkFrame (curTick_ a + (0 + Z.of_nat k))
                    (frame (0 + Z.of_nat k)) (eventId_ a + Z.of_nat k))
      (seq 0 (Z.to_nat (n + 1)))
    = map (fun k => mkFrame (curTick_ a + Z.of_nat k) (frame (Z.of_nat k))
                      (eventId_ a + Z.of_nat k))
        (seq 0 (Z.to_nat (n + 1)))).
  { apply map_ext. intros k. now rewrite Z.add_0_l. }
  rewrite Hshots.
  replace (eventId_ a + (n + 1)) with (eventId_ a + n + 1) by lia.
  split; [now rewrite <- app_assoc|].
  split; [reflexivity|]. split; [reflexivity|].
  split; [lia|]. split; [reflexivity|]. split; [reflexivity|].
  split; [reflexivity|].
  intros f Hf. apply in_map_iff in Hf as (k & <- & Hk).
  apply in_seq in Hk. unfold FrameOrder.leb. cbn [ticks eventId].
  destruct (Z.eq_dec (Z.of_nat k) n) as [He | Hne].
  - rewrite He, !Z.eqb_refl. split; lia.
  - replace (curTick_ a + Z.of_nat k =? curTick_ a + n) with false by lia.
    replace (curTick_ a + n =? curTick_ a + Z.of_nat k) with false by lia.
    split; lia.
Qed.

(** An animation of 100 ms after [turing.init]: 6 ticks, 7 frames and the
    done callback. *)
Lemma animateThroughBackgrounds_layout_witness :
  length (queue_ (anim.animateThroughBackgrounds (fun _ => CbUser 1) 100
                    (Some (CbUser 2)) (animState boot))) = 8%nat.
Proof.
  destruct (animateThroughBackgrounds_layout (fun _ => CbUser 1) 100
              (CbUser 2) (animState boot)) as (H & _).
  - change (0 <= 6). lia.
  - rewrite H. reflexivity.
Defined.

(** ** The operations of the machine *)

(** [dispatch] changes at most the square under the head, and moves the
    head by at most one square without writing. *)
Lemma dispatch_tape_local (n : Z) (op : option string) (prog : Program)
    (t : Tape) :
  let t' := snd (fst (Simulator.dispatch n op prog t)) in
  (forall i, i <> pos_ t -> contents_ t' !! i = contents_ t !! i) /\
  (pos_ t' = pos_ t \/
   contents_ t' = contents_ t /\
   (pos_ t' = pos_ t - 1 \/ pos_ t' = pos_ t + 1)).
Proof.
  cbv zeta. unfold Simulator.dispatch, Tape.print, Tape.scanLeft,
    Tape.scanRight.
  repeat match goal with
         | |- context [if ?b then _ else _] => destruct b
         end; cbn; split; auto; intros i Hi; now rewrite lookup_insert_ne.
Qed.

(** X14. A step whose operation is [0], [1] or [_] prints that symbol on
    the square under the head, and the symbol is what the next conditional
    jump reads there; [L] and [R] move the head one square and write
    nothing.  In each case the step asks for the next position on the same
    track and leaves every other tape and program alone. *)
Theorem step_tape_operation (user : nat -> World -> World * list Obs)
    (w : World) (tr pr : nat) (pc : Z * Z) (op : string) :
  tape_ (simulator_ w) = Some tr ->
  program_ (simulator_ w) = Some pr ->
  next_visit w = Some pc ->
  Simulator.strip_marker
    (Program.getCurOp (Program.goToNextPos (programs w pr))) = Some op ->
  In op ["0"; "1"; "_"; "L"; "R"] ->
  let prog1 := Program.goToNextPos (programs w pr) in
  let t := tapes w tr in
  let w' := fst (Simulator.step user w) in
  tapes w' tr =
    (if String.eqb op "L" then Tape.scanLeft t
     else if String.eqb op "R" then Tape.scanRight t
     else Tape.print op t) /\
  (op <> "L" -> op <> "R" ->
   Tape.getCurSymbol (tapes w' tr) = op /\ pos_ (tapes w' tr) = pos_ t) /\
  programs w' pr =
    Program.setNextPos (numOpsPerTrack_ w) (curTrack_ prog1)
      (curTrackPos_ prog1 + 1) prog1 /\
  (forall r, r <> tr -> tapes w' r = tapes w r) /\
  (forall r, r <> pr -> programs w' r = programs w r).
Proof.
  intros Ht Hp Hv Hop Hin. cbv zeta.
  destruct (next_visit_Some w pc Hv) as (tr' & pr' & Ht' & Hp' & Hid & Hgo & _).
  rewrite Ht in Ht'. rewrite Hp in Hp'.
  injection Ht' as <-. injection Hp' as <-.
  destruct (step_proceeds user w tr pr Ht Hp Hid Hgo)
    as (_ & Hprog & Htape & Hprogs & Htapes & _).
  rewrite Hop in Hprog, Htape.
  rewrite Htape, Hprog.
  destruct Hin as [<- | [<- | [<- | [<- | [<- | []]]]]];
    (split; [reflexivity|]); (split; [|split; [reflexivity | auto]]);
    intros HL HR; try congruence;
    unfold Tape.getCurSymbol; cbn; rewrite lookup_insert_eq; auto.
Qed.

(** A program that starts with [1], run after [turing.init]: the first step
    prints 1 on square 0. *)
Lemma step_tape_operation_witness :
  let w := Simulator.run 0 0 NORMAL None (setup [["1"; "R"]] "" 0) in
  Tape.getCurSymbol (tapes (fst (Simulator.step no_user w)) 0%nat) = "1".
Proof.
  intros w.
  destruct (step_tape_operation no_user w 0 0 (0, 0) "1"
              eq_refl eq_refl eq_refl eq_refl (or_intror (or_introl eq_refl)))
    as (_ & H & _).
  apply H; discriminate.
Defined.

(** X15. A step whose operation is [B2] ... [B9] asks for the position that
    many operations back on the same track and makes no implicit advance;
    the tape stays.  A branch over the start of the track ends the run at
    the next step: the end flag is set. *)
Theorem step_branch_back (user : nat -> World -> World * list Obs)
    (w : World) (tr pr : nat) (pc : Z * Z) (op : string) (d : Z) :
  tape_ (simulator_ w) = Some tr ->
  program_ (simulator_ w) = Some pr ->
  next_visit w = Some pc ->
  Simulator.strip_marker
    (Program.getCurOp (Program.goToNextPos (programs w pr))) = Some op ->
  In (op, d) [("B2", 2); ("B3", 3); ("B4", 4); ("B5", 5); ("B6", 6);
              ("B7", 7); ("B8", 8); ("B9", 9)] ->
  let prog1 := Program.goToNextPos (programs w pr) in
  let w' := fst (Simulator.step user w) in
  (forall r, tapes w' r = tapes w r) /\
  programs w' pr =
    Program.setNextPos (numOpsPerTrack_ w) (curTrack_ prog1)
      (curTrackPos_ prog1 - d) prog1 /\
  (curTrackPos_ prog1 < d -> Program.isNextPosEnd (programs w' pr) = true).
Proof.
  intros Ht Hp Hv Hop Hin. cbv zeta.
  destruct (next_visit_Some w pc Hv) as (tr' & pr' & Ht' & Hp' & Hid & Hgo & _).
  rewrite Ht in Ht'. rewrite Hp in Hp'.
  injection Ht' as <-. injection Hp' as <-.
  destruct (step_proceeds user w tr pr Ht Hp Hid Hgo)
    as (_ & Hprog & Htape & _ & Htapes & _).
  rewrite Hop in Hprog, Htape.
  assert (Hd : Simulator.dispatch (numOpsPerTrack_ w) (Some op)
                 (Program.goToNextPos (programs w pr)) (tapes w tr)
               = (Program.setNextPos (numOpsPerTrack_ w)
                    (curTrack_ (Program.goToNextPos (programs w pr)))
                    (curTrackPos_ (Program.goToNextPos (programs w pr)) - d)
                    (Program.goToNextPos (programs w pr)),
                  tapes w tr, false)).
  { cbn [In] in Hin.
    repeat (destruct Hin as [[= <- <-] | Hin]; [reflexivity|]).
    destruct Hin. }
  rewrite Hd in Hprog, Htape. cbn [fst snd] in Hprog, Htape.
  split; [|split; [exact Hprog|]].
  - intros r. destruct (Nat.eq_dec r tr) as [-> | Hne]; auto.
  - intros Hlt. rewrite Hprog. unfold Program.isNextPosEnd, Program.setNextPos.
    replace (0 <=? curTrackPos_ (Program.goToNextPos (programs w pr)) - d)
      with false by lia.
    rewrite andb_false_r. reflexivity.
Qed.

(** The loop with a detour on an empty tape: the third step executes [B2]
    at (0, 2) and asks for (0, 0). *)
Lemma step_branch_back_witness :
  let w0 := Simulator.run 0 0 NORMAL None (setup detour_loop "" 0) in
  let w := fst (Simulator.step no_user (fst (Simulator.step no_user w0))) in
  nextTrackPos_ (programs (fst (Simulator.step no_user w)) 0%nat) = 0.
Proof.
  intros w0 w.
  destruct (step_branch_back no_user w 0 0 (0, 2) "B2" 2
              eq_refl eq_refl eq_refl eq_refl (or_introl eq_refl))
    as (_ & H & _).
  rewrite H. reflexivity.
Defined.

(** What [dispatch] answers for the four jump-up operations. *)
Lemma dispatch_up (n : Z) (op : string) (prog : Program) (t : Tape) :
  op = "U" \/ op = "U0" \/ op = "U1" \/ op = "U_" ->
  Simulator.dispatch n (Some op) prog t =
    if String.eqb op "U" ||
       String.eqb op (String.append "U" (Tape.getCurSymbol t))
    then (Program.setNextPos n (Program.getCurTrack prog - 1)
            (Program.getCurTrackPos prog) prog, t, false)
    else (prog, t, true).
Proof.
  intros [-> | [-> | [-> | ->]]]; unfold Simulator.dispatch; cbn;
    try reflexivity;
    destruct (Tape.getCurSymbol t) as [|c [|c' s]]; try reflexivity;
    cbn; rewrite ?andb_false_r; try reflexivity;
    destruct (Ascii.eqb _ c); reflexivity.
Qed.

(** X16. A step whose operation is [U] or [U0], [U1], [U_]: if the
    operation is the bare [U], or the symbol under the head is the one it
    names, the step asks for the same index one track up and makes no
    implicit advance; otherwise it only makes the implicit advance.  A jump
    up from the top track ends the run at the next step.  The tape is the
    same after the step. *)
Theorem step_jump_up (user : nat -> World -> World * list Obs) (w : World)
    (tr pr : nat) (pc : Z * Z) (op : string) :
  tape_ (simulator_ w) = Some tr ->
  program_ (simulator_ w) = Some pr ->
  next_visit w = Some pc ->
  Simulator.strip_marker
    (Program.getCurOp (Program.goToNextPos (programs w pr))) = Some op ->
  In op ["U"; "U0"; "U1"; "U_"] ->
  let prog1 := Program.goToNextPos (programs w pr) in
  let taken :=
    op = "U" \/ op = String.append "U" (Tape.getCurSymbol (tapes w tr)) in
  let w' := fst (Simulator.step user w) in
  (forall r, tapes w' r = tapes w r) /\
  (taken ->
     programs w' pr =
       Program.setNextPos (numOpsPerTrack_ w) (curTrack_ prog1 - 1)
         (curTrackPos_ prog1) prog1 /\
     (curTrack_ prog1 <= 0 ->
      Program.isNextPosEnd (programs w' pr) = true)) /\
  (~ taken ->
     programs w' pr =
       Program.setNextPos (numOpsPerTrack_ w) (curTrack_ prog1)
         (curTrackPos_ prog1 + 1) prog1).
Proof.
  intros Ht Hp Hv Hop Hin. cbv zeta.
  destruct (next_visit_Some w pc Hv) as (tr' & pr' & Ht' & Hp' & Hid & Hgo & _).
  rewrite Ht in Ht'. rewrite Hp in Hp'.
  injection Ht' as <-. injection Hp' as <-.
  destruct (step_proceeds user w tr pr Ht Hp Hid Hgo)
    as (_ & Hprog & Htape & _ & Hothers & _).
  rewrite Hop in Hprog, Htape.
  assert (Hu : op = "U" \/ op = "U0" \/ op = "U1" \/ op = "U_").
  { cbn [In] in Hin. intuition auto. }
  rewrite (dispatch_up _ op _ _ Hu) in Hprog, Htape.
  destruct (String.eqb op "U" || String.eqb op _) eqn:E.
  - cbn [fst snd] in Hprog, Htape. repeat split.
    + intros r. destruct (Nat.eq_dec r tr) as [-> | Hne]; auto.
    + exact Hprog.
    + intros Htop. rewrite Hprog.
      unfold Program.isNextPosEnd, Program.setNextPos, Program.getCurTrack.
      replace (0 <=? curTrack_ (Program.goToNextPos (programs w pr)) - 1)
        with false by lia.
      reflexivity.
    + intros Hn. exfalso. apply Hn.
      apply orb_true_iff in E as [E | E]; apply String.eqb_eq in E; auto.
  - cbn [fst snd] in Hprog, Htape. repeat split.
    + intros r. destruct (Nat.eq_dec r tr) as [-> | Hne]; auto.
    + exfalso. destruct H as [H | H]; apply String.eqb_eq in H;
        rewrite H in E; rewrite ?orb_true_r in E; discriminate.
    + exfalso. destruct H as [H | H]; apply String.eqb_eq in H;
        rewrite H in E; rewrite ?orb_true_r in E; discriminate.
    + intros _. exact Hprog.
Qed.

(** The second step of the [D]/[U] program executes [U] at (1, 0) and asks
    for (0, 0). *)
Lemma step_jump_up_witness :
  let w0 := Simulator.run 0 0 NORMAL None (setup ping_pong "" 40) in
  let w := fst (Simulator.step no_user w0) in
  nextTrack_ (programs (fst (Simulator.step no_user w)) 0%nat) = 0.
Proof.
  intros w0 w.
  destruct (step_jump_up no_user w 0 0 (1, 0) "U"
              eq_refl eq_refl eq_refl eq_refl (or_introl eq_refl))
    as (_ & H & _).
  destruct H as [H _]; [left; reflexivity|]. rewrite H. reflexivity.
Defined.

(** ** What a step schedules *)

(** X17. A step on a position that holds no operation or the empty one
    does nothing to any tape: it asks for the next position on the same
    track and schedules the next step after the [emptyStepTime] of the
    speed in force, which the simulator records as its timer. *)
Theorem step_empty_operation (user : nat -> World -> World * list Obs)
    (w : World) (tr pr : nat) (pc : Z * Z) :
  tape_ (simulator_ w) = Some tr ->
  program_ (simulator_ w) = Some pr ->
  next_visit w = Some pc ->
  let prog1 := Program.goToNextPos (programs w pr) in
  let op := Simulator.strip_marker (Program.getCurOp prog1) in
  op = None \/ op = Some "" ->
  let a := animState w in
  let w' := fst (Simulator.step user w) in
  (forall r, tapes w' r = tapes w r) /\
  programs w' pr =
    Program.setNextPos (numOpsPerTrack_ w) (curTrack_ prog1)
      (curTrackPos_ prog1 + 1) prog1 /\
  queue_ (animState w')
  = queue_ a
    ++ [mkFrame
          (curTick_ a
           + anim.getNumTicks_
               (inject_Z (emptyStepTime (speeds_ (simulator_ w')))) a)
          CbStep (eventId_ a)] /\
  stepTimerId_ (simulator_ w') = eventId_ a.
Proof.
  intros Ht Hp Hv prog1 op Hop a w'.
  destruct (next_visit_Some w pc Hv) as (tr' & pr' & Ht' & Hp' & Hid & Hgo & _).
  rewrite Ht in Ht'. rewrite Hp in Hp'.
  injection Ht' as <-. injection Hp' as <-.
  destruct (step_proceeds user w tr pr Ht Hp Hid Hgo)
    as (_ & Hprog & Htape & _ & Hothers & _).
  destruct (step_proceeds_timer user w tr pr Ht Hp Hid Hgo)
    as (Ha & Hti & _).
  fold prog1 in Hprog, Htape, Ha, Hti. fold op in Hprog, Htape, Ha, Hti.
  fold w' in Hprog, Htape, Hothers, Ha, Hti.
  assert (Hd : Simulator.dispatch (numOpsPerTrack_ w) op prog1 (tapes w tr)
               = (prog1, tapes w tr, true) /\
               forall sp, Simulator.stepTimeFor op sp = emptyStepTime sp).
  { destruct Hop as [-> | ->]; split; reflexivity. }
  destruct Hd as [Hd Hst].
  rewrite Hd in Hprog, Htape. cbn [fst snd] in Hprog, Htape.
  rewrite Hst in Ha, Hti.
  split; [|split; [exact Hprog|]].
  - intros r. destruct (Nat.eq_dec r tr) as [-> | Hne]; auto.
  - rewrite Ha, Hti. split; reflexivity.
Qed.

(** The loop with a detour over a 1: the third step is on the empty
    operation at (1, 1) and asks for (1, 2). *)
Lemma step_empty_operation_witness :
  let w0 := Simulator.run 0 0 NORMAL None (setup detour_loop "1" 0) in
  let w := fst (Simulator.step no_user (fst (Simulator.step no_user w0))) in
  nextTrackPos_ (programs (fst (Simulator.step no_user w)) 0%nat) = 2.
Proof.
  intros w0 w.
  destruct (step_empty_operation no_user w 0 0 (1, 1)
              eq_refl eq_refl eq_refl (or_intror eq_refl))
    as (_ & H & _).
  rewrite H. reflexivity.
Defined.

(** X18. A step that executes an operation keeps the run going.  It leaves
    the events already queued in place and queues the next step as the last
    event of the queue; the id of that event is what the simulator records
    as its timer, so the simulator is running afterwards; the wait is one
    of the three times of the speed in force, counted from the current
    tick, and the clock and the frame period stay.  It counts the step,
    observes nothing, and keeps the references and the done callback.  It
    never edits the operations of a program, changes no square of a tape
    other than the one under the head, and moves a head by one square at
    most. *)
Theorem step_reschedules_itself (user : nat -> World -> World * list Obs)
    (w : World) (pc : Z * Z) :
  next_visit w = Some pc ->
  0 < eventId_ (animState w) ->
  let a := animState w in
  let w' := fst (Simulator.step user w) in
  let sp := speeds_ (simulator_ w') in
  (exists f ms,
     In ms [stepTime sp; emptyStepTime sp; branchTime sp] /\
     last (queue_ (animState w')) = Some f /\
     call f = CbStep /\
     eventId f = stepTimerId_ (simulator_ w') /\
     ticks f = curTick_ a + anim.getNumTicks_ (inject_Z ms) a) /\
  (exists l, queue_ (animState w') = queue_ a ++ l) /\
  curTick_ (animState w') = curTick_ a /\
  msPerFrame_ (animState w') = msPerFrame_ a /\
  eventId_ a <= stepTimerId_ (simulator_ w') < eventId_ (animState w') /\
  Simulator.isRunning (simulator_ w') = true /\
  snd (Simulator.step user w) = [] /\
  stepCount_ (simulator_ w') = stepCount_ (simulator_ w) + 1 /\
  program_ (simulator_ w') = program_ (simulator_ w) /\
  tape_ (simulator_ w') = tape_ (simulator_ w) /\
  doneCallback_ (simulator_ w') = doneCallback_ (simulator_ w) /\
  (forall r, tracks_ (programs w' r) = tracks_ (programs w r) /\
             numActiveTracks_ (programs w' r)
             = numActiveTracks_ (programs w r)) /\
  (forall r i, i <> pos_ (tapes w r) ->
     contents_ (tapes w' r) !! i = contents_ (tapes w r) !! i) /\
  (forall r, -1 <= pos_ (tapes w' r) - pos_ (tapes w r) <= 1).
Proof.
  intros Hv Hid0. cbv zeta.
  destruct (next_visit_Some w pc Hv) as (tr & pr & Ht & Hp & Hid & Hgo & _).
  destruct (step_proceeds user w tr pr Ht Hp Hid Hgo)
    as (Hobs & Hprog & Htape & Hprogs & Htapes & Hcount & _).
  destruct (step_proceeds_timer user w tr pr Ht Hp Hid Hgo)
    as (Ha & Hti & Hp' & Ht' & Hdone & _).
  set (op := Simulator.strip_marker
               (Program.getCurOp (Program.goToNextPos (programs w pr)))) in *.
  set (prog1 := Program.goToNextPos (programs w pr)) in *.
  set (w' := fst (Simulator.step user w)) in *.
  split.
  { eexists _, (Simulator.stepTimeFor op (speeds_ (simulator_ w'))).
    split; [|split; [rewrite Ha; apply last_snoc|]].
    - unfold Simulator.stepTimeFor.
      destruct (negb (truthy op)); [right; left; reflexivity|].
      destruct (test_UDB _); [right; right; left | left]; reflexivity.
    - rewrite Hti. repeat split; reflexivity. }
  split; [rewrite Ha; eexists; reflexivity|].
  split; [now rewrite Ha|]. split; [now rewrite Ha|].
  split; [rewrite Hti, Ha; cbn [fst snd anim.delay anim.delayTicks eventId_];
          lia|].
  split; [unfold Simulator.isRunning; rewrite Hti; cbn [fst anim.delay
            anim.delayTicks]; apply negb_true_iff; lia|].
  split; [exact Hobs|]. split; [exact Hcount|].
  split; [congruence|]. split; [congruence|]. split; [exact Hdone|].
  destruct (dispatch_keeps_tracks (numOpsPerTrack_ w) op prog1 (tapes w tr))
    as (Hk1 & Hk2 & _).
  destruct (dispatch_tape_local (numOpsPerTrack_ w) op prog1 (tapes w tr))
    as (Hl1 & Hl2).
  assert (Hgo1 : tracks_ prog1 = tracks_ (programs w pr) /\
                 numActiveTracks_ prog1 = numActiveTracks_ (programs w pr)).
  { unfold prog1, Program.goToNextPos.
    destruct (nextPosIsEnd_ (programs w pr)); split; reflexivity. }
  split; [|split].
  - intros r. destruct (Nat.eq_dec r pr) as [-> | Hne].
    + rewrite Hprog. destruct Hgo1 as [<- <-]. rewrite <- Hk1, <- Hk2.
      destruct (snd (Simulator.dispatch _ _ _ _)); [|split; reflexivity].
      unfold Program.setNextPos.
      match goal with
      | |- context [if ?b then _ else _] => destruct b
      end; split; reflexivity.
    + rewrite (Hprogs r Hne). split; reflexivity.
  - intros r i Hi. destruct (Nat.eq_dec r tr) as [-> | Hne].
    + rewrite Htape. now apply Hl1.
    + now rewrite (Htapes r Hne).
  - intros r. destruct (Nat.eq_dec r tr) as [-> | Hne].
    + rewrite Htape. destruct Hl2 as [-> | [_ [-> | ->]]]; lia.
    + rewrite (Htapes r Hne). lia.
Qed.

(** The first step of the [D]/[U] program after [turing.init]: the
    simulator is running after it. *)
Lemma step_reschedules_itself_witness :
  let w := Simulator.run 0 0 NORMAL None (setup ping_pong "" 40) in
  Simulator.isRunning (simulator_ (fst (Simulator.step no_user w))) = true.
Proof.
  intros w.
  destruct (step_reschedules_itself no_user w (0, 0) eq_refl eq_refl)
    as (_ & _ & _ & _ & _ & H & _).
  exact H.
Defined.

(** ** A step that ends the run *)

(** X19. A step that finds the end flag set, or the step count above a
    positive limit, ends the run without executing an operation: it clears
    the simulator's program, tape and timer, leaves the scheduler as it is
    (nothing is cancelled and nothing queued) and the tapes as they are,
    and only then invokes the done callback, if one is registered, once,
    and clears it.  The program keeps its operations; its current position
    is the last one reached. *)
Theorem step_ends_run (user : nat -> World -> World * list Obs) (w : World)
    (tr pr : nat) :
  tape_ (simulator_ w) = Some tr ->
  program_ (simulator_ w) = Some pr ->
  stepTimerId_ (simulator_ w) <> -1 ->
  (Program.isNextPosEnd (Program.goToNextPos (programs w pr)) ||
     ((0 <? stepLimit_ (simulator_ w)) &&
      (stepLimit_ (simulator_ w) <? stepCount_ (simulator_ w)))) = true ->
  exists w2,
    program_ (simulator_ w2) = None /\ tape_ (simulator_ w2) = None /\
    Simulator.isRunning (simulator_ w2) = false /\
    stepCount_ (simulator_ w2) = stepCount_ (simulator_ w) /\
    animState w2 = animState w /\ tapes w2 = tapes w /\
    programs w2 pr = Program.goToNextPos (programs w pr) /\
    (forall r, r <> pr -> programs w2 r = programs w r) /\
    match doneCallback_ (simulator_ w) with
    | None => Simulator.step user w = (w2, [])
    | Some d =>
        doneCallback_ (simulator_ w2) = Some d /\
        snd (Simulator.step user w) = Done d :: snd (user d w2) /\
        doneCallback_ (simulator_ (fst (Simulator.step user w))) = None /\
        animState (fst (Simulator.step user w)) = animState (fst (user d w2))
    end.
Proof.
  intros Ht Hp Hid Hgo. unfold Simulator.step.
  rewrite Ht, Hp. replace (stepTimerId_ (simulator_ w) =? -1) with false by lia.
  cbn [stepLimit_ stepCount_]. rewrite Hgo.
  unfold Simulator.stop.
  match goal with
  | |- context [Simulator.cancel_step_timer ?w1] =>
      change (Simulator.cancel_step_timer w1) with w1
  end.
  cbn [simulator_ set_program set_sim doneCallback_ stepCount_ stepLimit_
       runCount_ speeds_ paused_].
  match goal with
  | |- context [match doneCallback_ _ with Some _ => _ | None => (?w2, _) end]
    => exists w2
  end.
  repeat (split; [try reflexivity|]).
  - cbn. apply fn_upd_same.
  - intros r Hne. cbn. now apply fn_upd_other.
  - destruct (doneCallback_ (simulator_ w)) as [d|]; [|reflexivity].
    match goal with |- context [user d ?w2] => destruct (user d w2) as [w3 o] end.
    cbn. auto.
Qed.

(** The program that [turing.init] builds has no active track: the first
    step of a run on it ends the run. *)
Lemma step_ends_run_witness :
  let w := Simulator.run 0 0 NORMAL None boot in
  Simulator.isRunning (simulator_ (fst (Simulator.step no_user w))) = false.
Proof.
  intros w.
  destruct (step_ends_run no_user w 0 0 eq_refl eq_refl) as (w2 & H).
  - vm_compute. discriminate.
  - reflexivity.
  - destruct H as (_ & _ & Hrun & _ & _ & _ & _ & _ & Hstep).
    change (Simulator.step no_user w = (w2, [])) in Hstep.
    rewrite Hstep. exact Hrun.
Defined.

(** ** Starting, pausing and resuming *)

(** X20. [run] on a simulator that is not running queues one step event,
    due in the current tick, and starts the program at the origin whatever
    position an earlier run left: with an active track and a positive track
    length the first step executes the operation at (0, 0).  On a program
    without an active track (one that was never given operations) the
    first step executes nothing and ends the run: it invokes the done
    callback if there is one, and without one it leaves the tapes alone and
    the simulator not running. *)
Theorem run_starts_at_origin (user : nat -> World -> World * list Obs)
    (program tape : nat) (speed : SpeedSetting) (cb : option nat)
    (w : World) :
  Simulator.isRunning (simulator_ w) = false ->
  0 < eventId_ (animState w) ->
  let a := animState w in
  let w1 := Simulator.run program tape speed cb w in
  queue_ (animState w1)
  = queue_ a ++ [mkFrame (curTick_ a) CbStep (eventId_ a)] /\
  Simulator.isRunning (simulator_ w1) = true /\
  stepCount_ (simulator_ w1) = 0 /\
  tapes w1 = tapes w /\
  (0 < numActiveTracks_ (programs w program) -> 0 < numOpsPerTrack_ w ->
   next_visit w1 = Some (0, 0)) /\
  (numActiveTracks_ (programs w program) <= 0 \/ numOpsPerTrack_ w <= 0 ->
   next_visit w1 = None /\
   match cb with
   | None =>
       snd (Simulator.step user w1) = [] /\
       tapes (fst (Simulator.step user w1)) = tapes w /\
       Simulator.isRunning (simulator_ (fst (Simulator.step user w1))) = false
   | Some d => exists o, snd (Simulator.step user w1) = Done d :: o
   end).
Proof.
  intros Hrun Hid. cbv zeta. unfold Simulator.run. rewrite Hrun.
  unfold anim.delay. rewrite getNumTicks_zero.
  cbn [anim.delayTicks animState set_program set_sim set_anim simulator_
       queue_ stepCount_ tapes].
  rewrite Z.add_0_r.
  split; [reflexivity|].
  split; [unfold Simulator.isRunning; cbn [stepTimerId_];
          apply negb_true_iff; lia|].
  split; [reflexivity|]. split; [reflexivity|].
  assert (Hne : (eventId_ (animState w) =? -1) = false) by lia.
  split.
  - intros Hact Hops. unfold next_visit.
    cbn [simulator_ tape_ program_ stepTimerId_ programs stepLimit_
         stepCount_ set_sim set_anim set_program animState numOpsPerTrack_].
    rewrite Hne, fn_upd_same. unfold Program.setNextPos.
    replace (0 <? numActiveTracks_ (programs w program)) with true by lia.
    replace (0 <? numOpsPerTrack_ w) with true by lia.
    cbn. destruct (0 <? stepLimit_ (simulator_ w)) eqn:E; cbn.
    + replace (stepLimit_ (simulator_ w) <? 0) with false by lia. reflexivity.
    + reflexivity.
  - intros Hnone.
    assert (Hend : (0 <=? 0) && (0 <? numActiveTracks_ (programs w program))
                   && (0 <=? 0) && (0 <? numOpsPerTrack_ w) = false).
    { destruct Hnone.
      - replace (0 <? numActiveTracks_ (programs w program)) with false by lia.
        reflexivity.
      - replace (0 <? numOpsPerTrack_ w) with false by lia.
        apply andb_false_r. }
    unfold next_visit, Simulator.step.
    cbn [simulator_ tape_ program_ stepTimerId_ programs stepLimit_
         stepCount_ set_sim set_anim set_program animState numOpsPerTrack_].
    rewrite Hne, fn_upd_same. unfold Program.setNextPos.
    rewrite Hend.
    cbn [Program.goToNextPos nextPosIsEnd_ Program.isNextPosEnd orb].
    split; [reflexivity|].
    unfold Simulator.stop.
    match goal with
    | |- context [Simulator.cancel_step_timer ?w1] =>
        change (Simulator.cancel_step_timer w1) with w1
    end.
    cbn [simulator_ set_program set_sim doneCallback_ stepCount_ stepLimit_
         runCount_ speeds_ paused_].
    destruct cb as [d|].
    + match goal with
      | |- context [user d ?w2] => destruct (user d w2) as [w3 o] eqn:E
      end.
      cbn [fst snd]. now exists o.
    + cbn. auto.
Qed.

(** After [turing.init] the program has no active track; once it is given
    the [D]/[U] operations, [run] makes (0, 0) the first position. *)
Lemma run_starts_at_origin_witness :
  next_visit (Simulator.run 0 0 NORMAL None (setup ping_pong "" 40))
  = Some (0, 0).
Proof.
  destruct (run_starts_at_origin no_user 0 0 NORMAL None
              (setup ping_pong "" 40) eq_refl eq_refl)
    as (_ & _ & _ & _ & H & _).
  apply H; reflexivity.
Defined.

(** X21. [pause] takes the pending step event out of the queue, and only
    that one, and clears the timer; a second [pause] changes nothing more.
    [resumeIfPaused] after it queues one step event due in the current
    tick and records its id; the program and tape references, the step
    count, the done callback, and every program and tape are as they were
    before the pause.  [resumeIfPaused] on a simulator that is not paused
    changes nothing. *)
Theorem pause_then_resume (w : World) :
  ids_fresh (animState w) ->
  let a := animState w in
  let s := simulator_ w in
  let w1 := Simulator.pause w in
  let w2 := Simulator.resumeIfPaused w1 in
  queue_ (animState w1)
  = List.filter (fun f => negb (eventId f =? stepTimerId_ s)) (queue_ a) /\
  Simulator.isRunning (simulator_ w1) = false /\
  Simulator.pause w1 = w1 /\
  queue_ (animState w2)
  = queue_ (animState w1) ++ [mkFrame (curTick_ a) CbStep (eventId_ a)] /\
  stepTimerId_ (simulator_ w2) = eventId_ a /\
  paused_ (simulator_ w2) = false /\
  program_ (simulator_ w2) = program_ s /\
  tape_ (simulator_ w2) = tape_ s /\
  stepCount_ (simulator_ w2) = stepCount_ s /\
  doneCallback_ (simulator_ w2) = doneCallback_ s /\
  programs w2 = programs w /\ tapes w2 = tapes w /\
  Simulator.resumeIfPaused w2 = w2 /\
  (paused_ s = false -> Simulator.resumeIfPaused w = w).
Proof.
  intros (Hpos & Hall & Hnd).
  assert (Hc : queue_ (animState (Simulator.cancel_step_timer w))
               = List.filter
                   (fun f => negb (eventId f =? stepTimerId_ (simulator_ w)))
                   (queue_ (animState w)) /\
               curTick_ (animState (Simulator.cancel_step_timer w))
               = curTick_ (animState w) /\
               eventId_ (animState (Simulator.cancel_step_timer w))
               = eventId_ (animState w)).
  { unfold Simulator.cancel_step_timer.
    destruct (Z.eqb_spec (stepTimerId_ (simulator_ w)) (-1)) as [E | E];
      cbn [negb animState set_anim anim.cancel queue_ curTick_ eventId_].
    - split; [|split; reflexivity]. symmetry.
      apply List.forallb_filter_id, forallb_forall. intros f Hf.
      rewrite List.Forall_forall in Hall. specialize (Hall f Hf). lia.
    - split; [|split; reflexivity]. now apply remove_event_filter. }
  destruct Hc as (Hq & Hct & Hei).
  destruct (cancel_step_timer_frame w) as (Hps & Hts & Hs & _).
  cbv zeta. rewrite <- Hq, <- Hct, <- Hei, <- Hps, <- Hts.
  split; [reflexivity|]. split; [reflexivity|].
  split; [reflexivity|].
  unfold Simulator.pause. rewrite Hs.
  generalize (Simulator.cancel_step_timer w). intros w0.
  unfold Simulator.resumeIfPaused.
  cbn [simulator_ set_sim paused_ animState].
  unfold anim.delay. rewrite getNumTicks_zero.
  cbn [anim.delayTicks animState set_sim set_anim simulator_ queue_
       stepTimerId_ paused_ program_ tape_ stepCount_ doneCallback_
       programs tapes].
  rewrite Z.add_0_r.
  repeat (split; [reflexivity|]).
  intros Hp. destruct w as [a nt no ps ts [p t id d sc sl rc sp pa]].
  cbn in Hp. subst pa. reflexivity.
Qed.

(** A run of the [D]/[U] program is paused and resumed before its first
    step: the step event with id 1 is gone, the one with id 2 is queued. *)
Lemma pause_then_resume_witness :
  let w := Simulator.run 0 0 NORMAL None (setup ping_pong "" 40) in
  map eventId (queue_ (animState (Simulator.resumeIfPaused (Simulator.pause w))))
  = [2].
Proof.
  intros w.
  destruct (pause_then_resume w) as (H1 & _ & _ & H2 & _).
  - unfold ids_fresh. cbn -[Z.lt]. repeat split; try lia.
    + repeat constructor; cbn; lia.
    + compute_done.
  - rewrite H2, H1. reflexivity.
Defined.

(** ** The tracks a program reads *)

(** X22. The simulator never reads a track that does not exist.  If the
    current and the next track number of a program are indices of its
    array of tracks, [getCurOp] finds the current track, and this is still
    so after [setNextPos] with any arguments, after [goToNextPos], after
    the operation a step executes, and so after every step that executes
    one.  The constructor establishes it, and so does [change] for at most
    as many tracks as the display has. *)
Theorem current_track_exists (numTracks : nat) (n : Z) (p : Program) :
  tracks_ok numTracks p ->
  (exists ops, zlookup (tracks_ p) (curTrack_ p) = Some ops /\
               Program.getCurOp p = zlookup ops (curTrackPos_ p)) /\
  (forall track pos, tracks_ok numTracks (Program.setNextPos n track pos p)) /\
  tracks_ok numTracks (Program.goToNextPos p) /\
  (forall op t,
     tracks_ok numTracks (fst (fst (Simulator.dispatch n op p t)))) /\
  (forall trackOps,
     (0 < numTracks)%nat -> (length trackOps <= numTracks)%nat ->
     tracks_ok numTracks (Program.change numTracks trackOps p) /\
     tracks_ok numTracks (Program.new numTracks)) /\
  (forall user w pc,
     next_visit w = Some pc -> numTracks_ w = numTracks ->
     (forall r, tracks_ok numTracks (programs w r)) ->
     forall r, tracks_ok numTracks (programs (fst (Simulator.step user w)) r)).
Proof.
  assert (Hset : forall n' q track pos,
            tracks_ok numTracks q ->
            tracks_ok numTracks (Program.setNextPos n' track pos q)).
  { intros n' q track pos (Hlen & Hcur & Hnext & Hact).
    unfold tracks_ok, Program.setNextPos.
    destruct (_ && _) eqn:E; cbn [tracks_ curTrack_ nextTrack_
                                  numActiveTracks_]; repeat split; try lia. }
  assert (Hgo : forall q, tracks_ok numTracks q ->
                          tracks_ok numTracks (Program.goToNextPos q)).
  { intros q (Hlen & Hcur & Hnext & Hact).
    unfold tracks_ok, Program.goToNextPos.
    destruct (nextPosIsEnd_ q); cbn; repeat split; lia. }
  assert (Hdisp : forall n' op q t,
            tracks_ok numTracks q ->
            tracks_ok numTracks (fst (fst (Simulator.dispatch n' op q t)))).
  { intros n' op q t Hq. unfold Simulator.dispatch.
    repeat match goal with
           | |- context [if ?b then _ else _] => destruct b
           | |- context [match ?o with Some _ => _ | None => _ end] =>
               destruct o
           end; cbn [fst]; auto. }
  intros Hp. split; [|split; [|split; [|split; [|split]]]]; auto.
  - destruct Hp as (Hlen & Hcur & _).
    unfold Program.getCurOp, zlookup.
    replace (curTrack_ p <? 0) with false by lia.
    destruct (tracks_ p !! Z.to_nat (curTrack_ p)) as [ops|] eqn:E.
    + exists ops. split; reflexivity.
    + apply lookup_ge_None in E. lia.
  - intros trackOps Hpos Hlen. unfold tracks_ok. cbn.
    rewrite length_map, length_seq, repeat_length. repeat split; lia.
  - intros user w pc Hv Hnt Hall r.
    destruct (next_visit_Some w pc Hv) as (tr & pr & Ht & Hpr & Hid & Hgo' & _).
    destruct (step_proceeds user w tr pr Ht Hpr Hid Hgo')
      as (_ & Hprog & _ & Hprogs & _).
    destruct (Nat.eq_dec r pr) as [-> | Hne];
      [|rewrite (Hprogs r Hne); apply Hall].
    rewrite Hprog.
    destruct (snd (Simulator.dispatch _ _ _ _)); auto.
Qed.

(** The program of [turing.init], given the [D]/[U] operations, after its
    first step. *)
Lemma current_track_exists_witness :
  let w := Simulator.run 0 0 NORMAL None (setup ping_pong "" 40) in
  exists ops,
    zlookup (tracks_ (programs w 0%nat)) (curTrack_ (programs w 0%nat))
    = Some ops.
Proof.
  intros w.
  destruct (current_track_exists 2 8 (programs w 0%nat)) as ((ops & H & _) & _).
  - vm_compute. repeat split; first [reflexivity | discriminate].
  - exists ops. exact H.
Defined.

(** ** The step limit and the pace of a run *)

(** X23. With a positive step limit, a step that executes an operation
    leaves the step count at most one above the limit; and when the count
    had reached the limit, the count is above it afterwards and the next
    step executes nothing more. *)
Theorem step_count_bounded (user : nat -> World -> World * list Obs)
    (w : World) (pc : Z * Z) :
  next_visit w = Some pc ->
  0 < stepLimit_ (simulator_ w) ->
  let w' := fst (Simulator.step user w) in
  stepCount_ (simulator_ w) <= stepLimit_ (simulator_ w) /\
  stepCount_ (simulator_ w') <= stepLimit_ (simulator_ w) + 1 /\
  stepLimit_ (simulator_ w') = stepLimit_ (simulator_ w) /\
  (stepCount_ (simulator_ w) = stepLimit_ (simulator_ w) ->
   next_visit w' = None).
Proof.
  intros Hv Hlim. cbv zeta.
  destruct (next_visit_Some w pc Hv) as (tr & pr & Ht & Hp & Hid & Hgo & _).
  destruct (step_proceeds user w tr pr Ht Hp Hid Hgo)
    as (_ & _ & _ & _ & _ & Hcount & _).
  destruct (step_proceeds_timer user w tr pr Ht Hp Hid Hgo)
    as (_ & _ & Hp' & Ht' & _ & Hlim' & _).
  apply orb_false_iff in Hgo as [_ Hgo].
  replace (0 <? stepLimit_ (simulator_ w)) with true in Hgo by lia.
  cbn [andb] in Hgo.
  split; [lia|]. split; [lia|]. split; [exact Hlim'|].
  intros Heq. unfold next_visit. rewrite Ht', Hp', Hlim', Hcount.
  match goal with
  | |- context [if ?b then None else _] => destruct b; [reflexivity|]
  end.
  replace (0 <? stepLimit_ (simulator_ w)) with true by lia.
  replace (stepLimit_ (simulator_ w) <? stepCount_ (simulator_ w) + 1)
    with true by lia.
  cbn [andb]. rewrite orb_true_r. reflexivity.
Qed.

(** The first step of a run with a step limit of 40. *)
Lemma step_count_bounded_witness :
  let w := Simulator.run 0 0 NORMAL None (setup ping_pong "" 40) in
  stepCount_ (simulator_ (fst (Simulator.step no_user w))) <= 40 + 1.
Proof.
  intros w.
  destruct (step_count_bounded no_user w (0, 0) eq_refl eq_refl)
    as (_ & H & _).
  exact H.
Defined.

(** X24. A step never queues the next step for the tick it runs in.  With
    a positive frame period and a speed that is one of the five settings,
    the step event that a step queues, the last of the queue and the one
    the simulator records as its timer, is due in a later tick than the
    current one, whatever the operation; the clock stays, and the speed
    after the step is again one of the five settings. *)
Theorem step_next_is_later (user : nat -> World -> World * list Obs)
    (w : World) (pc : Z * Z) :
  next_visit w = Some pc ->
  (0 < msPerFrame_ (animState w))%Q ->
  (exists setting, speeds_ (simulator_ w) = SPEED_CONFIG setting) ->
  let w' := fst (Simulator.step user w) in
  (exists setting, speeds_ (simulator_ w') = SPEED_CONFIG setting) /\
  curTick_ (animState w') = curTick_ (animState w) /\
  exists f,
    last (queue_ (animState w')) = Some f /\
    call f = CbStep /\ eventId f = stepTimerId_ (simulator_ w') /\
    curTick_ (animState w) < ticks f.
Proof.
  intros Hv Hms Hsp. cbv zeta.
  destruct (next_visit_Some w pc Hv) as (tr & pr & Ht & Hp & Hid & Hgo & _).
  destruct (step_proceeds user w tr pr Ht Hp Hid Hgo)
    as (_ & _ & _ & _ & _ & _ & _ & Hspeed).
  destruct (step_proceeds_timer user w tr pr Ht Hp Hid Hgo)
    as (Ha & Hti & _).
  assert (Hsp' : exists setting,
            speeds_ (simulator_ (fst (Simulator.step user w)))
            = SPEED_CONFIG setting).
  { rewrite Hspeed. destruct (0 <? stepLimit_ (simulator_ w)); [|exact Hsp].
    unfold Simulator.speedUpBoringLoops_. cbn [speeds_].
    destruct (VERY_BORING_REPEAT_COUNT <? _); [now exists LUDICROUS|].
    destruct (SOMEWHAT_BORING_REPEAT_COUNT <? _); [now exists FAST|].
    exact Hsp. }
  split; [exact Hsp'|].
  destruct Hsp' as [setting Hset].
  rewrite Ha, Hti, Hset.
  split; [reflexivity|].
  eexists. split; [apply last_snoc|]. split; [reflexivity|].
  split; [reflexivity|]. cbn [ticks].
  match goal with
  | |- _ < _ + anim.getNumTicks_ ?d _ =>
      assert (Hd : 0 < anim.getNumTicks_ d (animState w)); [|lia]
  end.
  apply getNumTicks_positive; [exact Hms|].
  unfold Simulator.stepTimeFor.
  destruct (negb (truthy _)); [|destruct (test_UDB _)];
    destruct setting; reflexivity.
Qed.

(** The first step of the [D]/[U] program at normal speed: the next step
    is queued for a tick after tick 0. *)
Lemma step_next_is_later_witness :
  let w := Simulator.run 0 0 NORMAL None (setup ping_pong "" 40) in
  exists f,
    last (queue_ (animState (fst (Simulator.step no_user w)))) = Some f /\
    call f = CbStep /\
    eventId f = stepTimerId_ (simulator_ (fst (Simulator.step no_user w))) /\
    curTick_ (animState w) < ticks f.
Proof.
  intros w.
  destruct (step_next_is_later no_user w (0, 0) eq_refl eq_refl)
    as (_ & _ & H).
  - exists NORMAL. reflexivity.
  - exact H.
Defined.

(** ** Going to sleep and waking up *)

(** What [cancel_step_timer] does to the scheduler when the ids are
    fresh. *)
Lemma cancel_step_timer_anim (w : World) :
  ids_fresh (animState w) ->
  let a' := animState (Simulator.cancel_step_timer w) in
  queue_ a'
  = List.filter (fun f => negb (eventId f =? stepTimerId_ (simulator_ w)))
      (queue_ (animState w)) /\
  curTick_ a' = curTick_ (animState w) /\
  eventId_ a' = eventId_ (animState w) /\
  msPerFrame_ a' = msPerFrame_ (animState w).
Proof.
  intros (Hpos & Hall & Hnd). cbv zeta.
  unfold Simulator.cancel_step_timer.
  destruct (Z.eqb_spec (stepTimerId_ (simulator_ w)) (-1)) as [E | E];
    cbn [negb animState set_anim anim.cancel queue_ curTick_ eventId_
         msPerFrame_].
  - split; [|repeat split; reflexivity]. symmetry.
    apply List.forallb_filter_id, forallb_forall. intros f Hf.
    rewrite List.Forall_forall in Hall. specialize (Hall f Hf). lia.
  - split; [|repeat split; reflexivity]. now apply remove_event_filter.
Qed.

(** X25. The sleep timer.  When the simulator runs without a step limit
    and no mouse move was seen, [sleepIfInactive_] pauses the simulator and
    stops the frame loop, and sets no new timeout: the step event is out of
    the queue and a frame does nothing.  The next mouse move wakes the
    doodle: the loop runs again, one step event is queued, due in the
    current tick, the simulator runs with the program, tape, step count and
    frame period it had, and one timeout is set.  A simulator with a step
    limit, one that is not running, or a mouse move seen keep the doodle
    awake, and a mouse move while the loop runs changes nothing but the
    flag. *)
Theorem sleep_and_wake (d : Doodle) :
  Simulator.isRunning (simulator_ (world d)) = true ->
  Simulator.hasStepLimit (simulator_ (world d)) = false ->
  sawMouseMove_ d = false ->
  ids_fresh (animState (world d)) ->
  let w := world d in
  let d1 := sleepIfInactive_ d in
  let d2 := mouseMoveListener_ d1 in
  (anim.isStopped (animState (world d1)) = true /\
   Simulator.isRunning (simulator_ (world d1)) = false /\
   queue_ (animState (world d1))
   = List.filter (fun f => negb (eventId f =? stepTimerId_ (simulator_ w)))
       (queue_ (animState w)) /\
   timeouts_ d1 = timeouts_ d /\
   forall user fuel now,
     Simulator.loop_step user fuel now (world d1) = Some (world d1, [])) /\
  (anim.isStopped (animState (world d2)) = false /\
   Simulator.isRunning (simulator_ (world d2)) = true /\
   paused_ (simulator_ (world d2)) = false /\
   queue_ (animState (world d2))
   = queue_ (animState (world d1))
     ++ [mkFrame (curTick_ (animState w)) CbStep (eventId_ (animState w))] /\
   program_ (simulator_ (world d2)) = program_ (simulator_ w) /\
   tape_ (simulator_ (world d2)) = tape_ (simulator_ w) /\
   stepCount_ (simulator_ (world d2)) = stepCount_ (simulator_ w) /\
   programs (world d2) = programs w /\ tapes (world d2) = tapes w /\
   msPerFrame_ (animState (world d2)) = msPerFrame_ (animState w) /\
   timeouts_ d2 = timeouts_ d + 1 /\ sawMouseMove_ d2 = true) /\
  (forall d',
     Simulator.hasStepLimit (simulator_ (world d')) = true \/
     Simulator.isRunning (simulator_ (world d')) = false \/
     sawMouseMove_ d' = true ->
     world (sleepIfInactive_ d') = world d' /\
     sawMouseMove_ (sleepIfInactive_ d') = false /\
     timeouts_ (sleepIfInactive_ d') = timeouts_ d' + 1) /\
  (forall d',
     anim.isStopped (animState (world d')) = false ->
     world (mouseMoveListener_ d') = world d' /\
     timeouts_ (mouseMoveListener_ d') = timeouts_ d').
Proof.
  intros Hrun Hlim Hsaw Hfresh. cbv zeta.
  destruct (cancel_step_timer_anim (world d) Hfresh) as (Hq & Hct & Hei & Hms).
  destruct (cancel_step_timer_frame (world d)) as (Hps & Hts & Hs & _).
  assert (Hpos : 0 < eventId_ (animState (world d))) by apply Hfresh.
  unfold sleepIfInactive_. rewrite Hrun, Hlim, Hsaw. cbn [andb negb].
  rewrite <- Hq, <- Hct, <- Hei, <- Hps, <- Hts, <- Hms.
  split; [|split; [|split]].
  - cbn [world timeouts_]. repeat (split; [reflexivity|]).
    intros user fuel now. reflexivity.
  - unfold mouseMoveListener_. cbn [world timeouts_ sawMouseMove_].
    unfold Simulator.pause. rewrite Hs. rewrite <- Hei in Hpos.
    clear Hq Hct Hei Hps Hts Hms Hs. revert Hpos.
    generalize (Simulator.cancel_step_timer (world d)). intros w0 Hpos.
    cbn [animState set_anim set_sim anim.isStopped anim.stop
         anim.resetFpsController_ stopped_].
    cbn [world timeouts_ sawMouseMove_].
    unfold Simulator.resumeIfPaused, Simulator.isRunning.
    cbn [simulator_ set_sim set_anim paused_ animState].
    unfold anim.delay. rewrite getNumTicks_zero.
    cbn [anim.delayTicks anim.start animState set_sim set_anim simulator_
         queue_ stepTimerId_ paused_ program_ tape_ stepCount_ doneCallback_
         programs tapes stopped_ curTick_ eventId_ msPerFrame_].
    rewrite Z.add_0_r.
    split; [reflexivity|].
    split; [apply negb_true_iff; cbn; lia|].
    repeat (split; [reflexivity|]). reflexivity.
  - intros d' Hawake. unfold sleepIfInactive_.
    replace (Simulator.isRunning (simulator_ (world d')) &&
             negb (Simulator.hasStepLimit (simulator_ (world d'))) &&
             negb (sawMouseMove_ d')) with false; [repeat split|].
    symmetry. destruct Hawake as [-> | [-> | ->]];
      rewrite ?andb_false_r; reflexivity.
  - intros d' Hawake. unfold mouseMoveListener_. rewrite Hawake.
    split; reflexivity.
Qed.

(** The [D]/[U] program running without a step limit, put to sleep and
    woken up before its first step. *)
Lemma sleep_and_wake_witness :
  let d :=
    mkDoodle (Simulator.run 0 0 NORMAL None (setup ping_pong "" 0))
      false None 0 in
  Simulator.isRunning
    (simulator_ (world (mouseMoveListener_ (sleepIfInactive_ d)))) = true.
Proof.
  intros d.
  assert (Hfresh : ids_fresh (animState (world d))).
  { unfold ids_fresh. cbn -[Z.lt]. repeat split; try lia.
    - repeat constructor; cbn; lia.
    - compute_done. }
  destruct (sleep_and_wake d eq_refl eq_refl eq_refl Hfresh)
    as (_ & (_ & H & _) & _).
  exact H.
Defined.
